(** * react-media-recorder: the recording session behind [useReactMediaRecorder]

    A shallow embedding of [src/index.ts].  The file holds two versions of
    the hook: one keeps the stream in React state ([useState], and exposes
    [stopMediaStream]); the other keeps it in a mutable cell ([useRef]).
    Both are modelled; they differ in [getMediaStream] and [startRecording]
    only, and the functions below take the variant as an argument.

    The hook's cells ([useRef] and [useState]) are the fields of one record,
    [World], together with what the browser keeps for it: the object-URL
    store and the order in which the hook called out (status updates,
    consumer callbacks, capture requests).  Handlers are written in a small
    state-and-exception monad so that they read like the TypeScript.

    What belongs to the platform and not to the source is kept minimal:
      - a [MediaRecorder] is its [state] attribute and the stream it was
        built on; [start], [stop], [pause], [resume] move the attribute;
      - recorder events (dataavailable, start, stop, error) come from the
        environment and run the handler wired by [startRecording];
      - [new Blob(parts, bag)] concatenates the parts and takes the type
        from the bag as passed;
      - [URL.createObjectURL] registers the blob and returns a fresh URL;
      - the props are constant over the life of the session, and an action
        always runs the closure of the latest render;
      - [await] is atomic: nothing else happens to the session while
        [getMediaStream] waits for the capability.

    The mount effect (capability checks, console warnings, the first call
    of [getMediaStream]) is not part of the model: a session starts from
    [initial_world] and an acquisition is an event like any other. *)

From Stdlib Require Import List String Ascii Bool Arith Lia.
From Stdlib Require Import Strings.Byte.
From Stdlib Require Import Decimal DecimalString DecimalNat.
Import ListNotations.
Open Scope string_scope.

(** ** Data model *)

(** [StatusMessages]: the union of string literals (the state variant has
    one more member, ["requesting_media"], never assigned by either). *)
Inductive StatusMessages : Type :=
| media_aborted
| permission_denied
| no_specified_media_found
| media_in_use
| invalid_media_constraints
| no_constraints
| recorder_error
| idle
| acquiring_media
| delayed_start
| recording
| stopping
| stopped
| requesting_media.

(** [enum RecorderErrors], read as the hook reads it: [RecorderErrors[key]].
    A key the enum does not have yields [undefined], here [None]. *)
Definition RecorderErrors (key : string) : option string :=
  if String.eqb key "AbortError" then Some "media_aborted"
  else if String.eqb key "NotAllowedError" then Some "permission_denied"
  else if String.eqb key "NotFoundError" then Some "no_specified_media_found"
  else if String.eqb key "NotReadableError" then Some "media_in_use"
  else if String.eqb key "OverconstrainedError" then Some "invalid_media_constraints"
  else if String.eqb key "TypeError" then Some "no_constraints"
  else if String.eqb key "NONE" then Some ""
  else if String.eqb key "NO_RECORDER" then Some "recorder_error"
  else if String.eqb key "UnsupportedBrowserError" then Some "unsupported_browser"
  else None.


(** Tracks and streams. *)
Inductive TrackKind : Type := kind_audio | kind_video.

Inductive MediaStreamTrackState : Type := live | ended.

Record MediaStreamTrack : Type := {
  kind : TrackKind;
  enabled : bool;
  readyState : MediaStreamTrackState
}.

Definition MediaStream : Type := list MediaStreamTrack.

Definition is_audio (t : MediaStreamTrack) : bool :=
  match kind t with kind_audio => true | kind_video => false end.

Definition is_ended (t : MediaStreamTrack) : bool :=
  match readyState t with ended => true | live => false end.

(** [stream.getAudioTracks()] *)
Definition getAudioTracks (s : MediaStream) : list MediaStreamTrack :=
  filter is_audio s.

(** [track.stop()] *)
Definition track_stop (t : MediaStreamTrack) : MediaStreamTrack :=
  {| kind := kind t; enabled := enabled t; readyState := ended |}.

(** [track.enabled = b] *)
Definition track_set_enabled (b : bool) (t : MediaStreamTrack) : MediaStreamTrack :=
  {| kind := kind t; enabled := b; readyState := readyState t |}.

(** [stream.getTracks().forEach((track) => track.stop())] *)
Definition stop_all_tracks (s : MediaStream) : MediaStream :=
  map track_stop s.

(** [stream.getAudioTracks().forEach((t) => (t.enabled = b))] *)
Definition set_audio_enabled (b : bool) (s : MediaStream) : MediaStream :=
  map (fun t => if is_audio t then track_set_enabled b t else t) s.

(** Blobs: the recorder's chunks and the assembled output. *)
Record Blob : Type := {
  blob_data : list byte;
  blob_type : string
}.

(** [BlobPropertyBag]: each member may be absent. *)
Record BlobPropertyBag : Type := {
  bag_type : option string;
  bag_endings : option string
}.

(** [Object.assign(target, source)] on property bags: every member the
    source has overwrites the target's. *)
Definition Object_assign (target source : BlobPropertyBag) : BlobPropertyBag :=
  {| bag_type := match bag_type source with
                 | Some t => Some t
                 | None => bag_type target
                 end;
     bag_endings := match bag_endings source with
                    | Some e => Some e
                    | None => bag_endings target
                    end |}.

(** [new Blob(parts, bag)] *)
Definition new_Blob (parts : list Blob) (bag : BlobPropertyBag) : Blob :=
  {| blob_data := List.concat (List.map blob_data parts);
     blob_type := match bag_type bag with Some t => t | None => "" end |}.

(** [MediaRecorder]: the [state] attribute and the stream it records. *)
Inductive RecordingState : Type := rs_inactive | rs_recording | rs_paused.

Record MediaRecorder : Type := {
  state : RecordingState;
  stream : MediaStream
}.

(** [new MediaRecorder(stream)] *)
Definition new_MediaRecorder (s : MediaStream) : MediaRecorder :=
  {| state := rs_inactive; stream := s |}.

Definition recorder_set_state (st : RecordingState) (r : MediaRecorder) : MediaRecorder :=
  {| state := st; stream := stream r |}.

(** Props of the hook.  [audio] and [video] are [boolean | MediaTrackConstraints];
    a constraint object is the list of its keys. *)
Definition MediaTrackConstraints : Type := list string.

Inductive MediaSpec : Type :=
| spec_bool (b : bool)
| spec_constraints (c : MediaTrackConstraints).

(** JavaScript truthiness of such a value: an object is truthy. *)
Definition truthy (m : MediaSpec) : bool :=
  match m with
  | spec_bool b => b
  | spec_constraints _ => true
  end.

Record Props : Type := {
  audio : MediaSpec;
  video : MediaSpec;
  screen : bool;
  blobPropertyBag : option BlobPropertyBag;
  customMediaStream : option MediaStream;
  stopStreamsOnStop : bool
}.

(** The defaults of the destructured parameter. *)
Definition default_props : Props :=
  {| audio := spec_bool true;
     video := spec_bool false;
     screen := false;
     blobPropertyBag := None;
     customMediaStream := None;
     stopStreamsOnStop := true |}.

(** The capture capability, [window.navigator.mediaDevices]. A request
    yields a stream or is rejected with an error of some name. *)
Record MediaStreamConstraints : Type := {
  c_audio : option MediaSpec;
  c_video : option MediaSpec
}.

Record MediaDevices : Type := {
  getUserMedia : MediaStreamConstraints -> MediaStream + string;
  getDisplayMedia : MediaStreamConstraints -> MediaStream + string
}.

(** What the hook does to the outside, in order. *)
Inductive Effect : Type :=
| SetStatus (s : StatusMessages)
| CallOnStart
| CallOnStop (blobUrl : string) (blob : Blob)
| CallGetUserMedia (c : MediaStreamConstraints)
| CallGetDisplayMedia (c : MediaStreamConstraints).

(** The cells of the hook and the browser-side stores. *)
Record World : Type := {
  mediaRecorder : option MediaRecorder;   (* useRef *)
  mediaChunks : list Blob;                (* useRef *)
  mediaStream : option MediaStream;       (* useState, or useRef in the ref variant *)
  status : StatusMessages;                (* useState *)
  isAudioMuted : bool;                    (* useState *)
  mediaBlobUrl : option string;           (* useState *)
  error : string;                         (* useState: a key of RecorderErrors *)
  blobStore : list Blob;                  (* blobs registered by createObjectURL *)
  effects : list Effect                   (* oldest first *)
}.

Definition initial_world : World :=
  {| mediaRecorder := None;
     mediaChunks := [];
     mediaStream := None;
     status := idle;
     isAudioMuted := false;
     mediaBlobUrl := None;
     error := "NONE";
     blobStore := [];
     effects := [] |}.

(** Field updates. *)
Definition with_mediaRecorder (v : option MediaRecorder) (w : World) : World :=
  {| mediaRecorder := v; mediaChunks := mediaChunks w; mediaStream := mediaStream w;
     status := status w; isAudioMuted := isAudioMuted w; mediaBlobUrl := mediaBlobUrl w;
     error := error w; blobStore := blobStore w; effects := effects w |}.

Definition with_mediaChunks (v : list Blob) (w : World) : World :=
  {| mediaRecorder := mediaRecorder w; mediaChunks := v; mediaStream := mediaStream w;
     status := status w; isAudioMuted := isAudioMuted w; mediaBlobUrl := mediaBlobUrl w;
     error := error w; blobStore := blobStore w; effects := effects w |}.

Definition with_mediaStream (v : option MediaStream) (w : World) : World :=
  {| mediaRecorder := mediaRecorder w; mediaChunks := mediaChunks w; mediaStream := v;
     status := status w; isAudioMuted := isAudioMuted w; mediaBlobUrl := mediaBlobUrl w;
     error := error w; blobStore := blobStore w; effects := effects w |}.

Definition with_status (v : StatusMessages) (w : World) : World :=
  {| mediaRecorder := mediaRecorder w; mediaChunks := mediaChunks w; mediaStream := mediaStream w;
     status := v; isAudioMuted := isAudioMuted w; mediaBlobUrl := mediaBlobUrl w;
     error := error w; blobStore := blobStore w; effects := effects w |}.

Definition with_isAudioMuted (v : bool) (w : World) : World :=
  {| mediaRecorder := mediaRecorder w; mediaChunks := mediaChunks w; mediaStream := mediaStream w;
     status := status w; isAudioMuted := v; mediaBlobUrl := mediaBlobUrl w;
     error := error w; blobStore := blobStore w; effects := effects w |}.

Definition with_mediaBlobUrl (v : option string) (w : World) : World :=
  {| mediaRecorder := mediaRecorder w; mediaChunks := mediaChunks w; mediaStream := mediaStream w;
     status := status w; isAudioMuted := isAudioMuted w; mediaBlobUrl := v;
     error := error w; blobStore := blobStore w; effects := effects w |}.

Definition with_error (v : string) (w : World) : World :=
  {| mediaRecorder := mediaRecorder w; mediaChunks := mediaChunks w; mediaStream := mediaStream w;
     status := status w; isAudioMuted := isAudioMuted w; mediaBlobUrl := mediaBlobUrl w;
     error := v; blobStore := blobStore w; effects := effects w |}.

Definition with_blobStore (v : list Blob) (w : World) : World :=
  {| mediaRecorder := mediaRecorder w; mediaChunks := mediaChunks w; mediaStream := mediaStream w;
     status := status w; isAudioMuted := isAudioMuted w; mediaBlobUrl := mediaBlobUrl w;
     error := error w; blobStore := v; effects := effects w |}.

Definition emit (e : Effect) (w : World) : World :=
  {| mediaRecorder := mediaRecorder w; mediaChunks := mediaChunks w; mediaStream := mediaStream w;
     status := status w; isAudioMuted := isAudioMuted w; mediaBlobUrl := mediaBlobUrl w;
     error := error w; blobStore := blobStore w; effects := effects w ++ [e] |}.

(** ** The monad of handlers

    A handler runs on the world and completes normally or by throwing; what
    it wrote before the throw stays written. *)
Inductive Completion (A : Type) : Type :=
| Normal (a : A)
| Throw (name : string).
Arguments Normal {A} a.
Arguments Throw {A} name.

Definition M (A : Type) : Type := World -> Completion A * World.

Definition ret {A} (a : A) : M A := fun w => (Normal a, w).

Definition bind {A B} (m : M A) (k : A -> M B) : M B :=
  fun w =>
    match m w with
    | (Normal a, w') => k a w'
    | (Throw n, w') => (Throw n, w')
    end.

Definition throw {A} (name : string) : M A := fun w => (Throw name, w).

(** [try { body } catch (err) { handler(err.name) }] *)
Definition try_catch {A} (body : M A) (handler : string -> M A) : M A :=
  fun w =>
    match body w with
    | (Normal a, w') => (Normal a, w')
    | (Throw n, w') => handler n w'
    end.

Definition gets {A} (f : World -> A) : M A := fun w => (Normal (f w), w).

Definition modify (f : World -> World) : M unit := fun w => (Normal tt, f w).

Declare Scope hook_scope.
Delimit Scope hook_scope with hook.
Notation "x <- m ;; k" := (bind m (fun x => k))
  (at level 61, m at next level, right associativity) : hook_scope.
Notation "m ;; k" := (bind m (fun _ => k))
  (at level 61, right associativity) : hook_scope.
Open Scope hook_scope.

(** The world a handler leaves behind, whichever way it completed. *)
Definition exec {A} (m : M A) (w : World) : World := snd (m w).

Definition completes {A} (m : M A) (w : World) : bool :=
  match fst (m w) with Normal _ => true | Throw _ => false end.

(** ** Platform operations *)

(** [URL.createObjectURL(blob)]: the n-th registration yields ["blob:n"]. *)
Definition object_url (n : nat) : string :=
  "blob:" ++ NilEmpty.string_of_uint (Nat.to_uint n).

Definition createObjectURL (blob : Blob) : M string :=
  fun w =>
    (Normal (object_url (List.length (blobStore w))),
     with_blobStore (blobStore w ++ [blob]) w).

(** [await navigator.mediaDevices.getUserMedia(c)] and [getDisplayMedia(c)]:
    a rejected request throws at the [await]. *)
Definition await_getUserMedia (d : MediaDevices) (c : MediaStreamConstraints)
  : M MediaStream :=
  modify (emit (CallGetUserMedia c)) ;;
  match getUserMedia d c with
  | inl s => ret s
  | inr name => throw name
  end.

Definition await_getDisplayMedia (d : MediaDevices) (c : MediaStreamConstraints)
  : M MediaStream :=
  modify (emit (CallGetDisplayMedia c)) ;;
  match getDisplayMedia d c with
  | inl s => ret s
  | inr name => throw name
  end.

(** The state setters of [useState], and the consumer's callbacks. *)
Definition setStatus (s : StatusMessages) : M unit :=
  modify (fun w => emit (SetStatus s) (with_status s w)).

Definition setError (key : string) : M unit := modify (with_error key).

Definition setMediaStream (s : MediaStream) : M unit :=
  modify (with_mediaStream (Some s)).

Definition setIsAudioMuted (b : bool) : M unit := modify (with_isAudioMuted b).

Definition setMediaBlobUrl (u : option string) : M unit :=
  modify (with_mediaBlobUrl u).

Definition onStart : M unit := modify (emit CallOnStart).

Definition onStop (blobUrl : string) (blob : Blob) : M unit :=
  modify (emit (CallOnStop blobUrl blob)).

(** Methods of the recorder held in [mediaRecorder.current]. *)
Definition recorder_method (st : RecordingState) : M unit :=
  modify (fun w =>
    with_mediaRecorder (option_map (recorder_set_state st) (mediaRecorder w)) w).

(** Track operations on the stream held by the hook. *)
Definition on_stream (f : MediaStream -> MediaStream) : M unit :=
  modify (fun w => with_mediaStream (option_map f (mediaStream w)) w).

(** ** The hook *)

Inductive Variant : Type :=
| StateStream   (* stream in [useState]; has [stopMediaStream] *)
| RefStream.    (* stream in [useRef] *)

Section Hook.

Variable v : Variant.
Variable props : Props.

(** [getMediaStream].  The ref variant returns at once when a stream is held. *)
Definition getMediaStream (d : MediaDevices) : M unit :=
  held <- gets mediaStream ;;
  match v, held with
  | RefStream, Some _ => ret tt
  | _, _ =>
    setStatus acquiring_media ;;
    let requiredMedia :=
      {| c_audio := Some (audio props); c_video := Some (video props) |} in
    try_catch
      (match customMediaStream props with
       | Some custom => setMediaStream custom
       | None =>
         if screen props then
           stream <- await_getDisplayMedia d
             {| c_audio := None;
                c_video := Some (if truthy (video props) then video props
                                 else spec_bool true) |} ;;
           stream <- (if truthy (audio props) then
                        audioStream <- await_getUserMedia d
                          {| c_audio := Some (audio props); c_video := None |} ;;
                        ret (stream ++ getAudioTracks audioStream)%list
                      else ret stream) ;;
           setMediaStream stream
         else
           stream <- await_getUserMedia d requiredMedia ;;
           setMediaStream stream
       end ;;
       setStatus idle)
      (fun name => setError name ;; setStatus idle)
  end.

(** [onRecordingStart] *)
Definition onRecordingStart : M unit := onStart.

(** [onRecordingStop], the finalize handler.  [chunk.type] on an empty
    buffer reads a property of [undefined] and throws a TypeError. *)
Definition onRecordingStop : M unit :=
  chunks <- gets mediaChunks ;;
  chunk <- match chunks with
           | [] => throw "TypeError"
           | c :: _ => ret c
           end ;;
  let blobProperty :=
    Object_assign
      {| bag_type := Some (blob_type chunk); bag_endings := None |}
      match blobPropertyBag props with
      | Some bag => bag
      | None =>
        if truthy (video props)
        then {| bag_type := Some "video/mp4"; bag_endings := None |}
        else {| bag_type := Some "audio/wav"; bag_endings := None |}
      end in
  let blob := new_Blob chunks blobProperty in
  url <- createObjectURL blob ;;
  setStatus stopped ;;
  setMediaBlobUrl (Some url) ;;
  onStop url blob.

(** [muteAudio(mute)] *)
Definition muteAudio (mute : bool) : M unit :=
  setIsAudioMuted mute ;;
  on_stream (set_audio_enabled (negb mute)).

(** [pauseRecording] *)
Definition pauseRecording : M unit :=
  r <- gets mediaRecorder ;;
  match r with
  | Some rec =>
    match state rec with
    | rs_recording => recorder_method rs_paused
    | _ => ret tt
    end
  | None => ret tt
  end.

(** [resumeRecording] *)
Definition resumeRecording : M unit :=
  r <- gets mediaRecorder ;;
  match r with
  | Some rec =>
    match state rec with
    | rs_paused => recorder_method rs_recording
    | _ => ret tt
    end
  | None => ret tt
  end.

(** [onRecordingActive] *)
Definition onRecordingActive (data : Blob) : M unit :=
  modify (fun w => with_mediaChunks (mediaChunks w ++ [data]) w).

(** [stopRecording] *)
Definition stopRecording : M unit :=
  r <- gets mediaRecorder ;;
  match r with
  | Some rec =>
    match state rec with
    | rs_inactive => ret tt
    | _ =>
      setStatus stopping ;;
      recorder_method rs_inactive ;;
      (if stopStreamsOnStop props then on_stream stop_all_tracks else ret tt) ;;
      modify (with_mediaChunks [])
    end
  | None => ret tt
  end.

(** The [onerror] handler installed by [startRecording]. *)
Definition onRecorderError : M unit :=
  setError "NO_RECORDER" ;;
  setStatus idle.

(** [startRecording].  Both variants compute [isStreamEnded]; only the
    state variant acts on it.  The recorder is built on the stream the
    closure captured, also after a re-acquisition. *)
Definition startRecording (d : MediaDevices) : M unit :=
  setError "NONE" ;;
  held <- gets mediaStream ;;
  match held with
  | Some stream =>
    let isStreamEnded := existsb is_ended stream in
    match v with
    | StateStream => if isStreamEnded then getMediaStream d else ret tt
    | RefStream => ret tt
    end ;;
    modify (with_mediaRecorder (Some (new_MediaRecorder stream))) ;;
    recorder_method rs_recording ;;
    setStatus recording
  | None => ret tt
  end.

(** [stopMediaStream] (state variant) *)
Definition stopMediaStream : M unit := on_stream stop_all_tracks.

(** [clearBlobUrl] *)
Definition clearBlobUrl : M unit := setMediaBlobUrl None.

(** ** The session as a transition system

    What can happen to a session: the consumer calls an action of the
    render props, or a recorder built by [startRecording] fires an event. *)
Inductive Event : Type :=
| call_getMediaStream (d : MediaDevices)
| call_startRecording (d : MediaDevices)
| call_stopRecording
| call_pauseRecording
| call_resumeRecording
| call_muteAudio
| call_unMuteAudio
| call_clearBlobUrl
| call_stopMediaStream
| ev_dataavailable (data : Blob)
| ev_start
| ev_stop
| ev_error.

Definition handler (e : Event) : M unit :=
  match e with
  | call_getMediaStream d => getMediaStream d
  | call_startRecording d => startRecording d
  | call_stopRecording => stopRecording
  | call_pauseRecording => pauseRecording
  | call_resumeRecording => resumeRecording
  | call_muteAudio => muteAudio true
  | call_unMuteAudio => muteAudio false
  | call_clearBlobUrl => clearBlobUrl
  | call_stopMediaStream => stopMediaStream
  | ev_dataavailable data => onRecordingActive data
  | ev_start => onRecordingStart
  | ev_stop => onRecordingStop
  | ev_error => onRecorderError
  end.

(** An event runs its handler; a throw inside a handler is not seen by the
    session, which goes on from the world as the handler left it. *)
Definition step (w : World) (e : Event) : World := exec (handler e) w.

Definition run (es : list Event) (w : World) : World := fold_left step es w.


End Hook.

(** The fields of the render props that are read, not called. *)
Record RenderProps : Type := {
  rp_error : option string;
  rp_mediaBlobUrl : option string;
  rp_status : StatusMessages;
  rp_isAudioMuted : bool;
  rp_previewStream : option MediaStream
}.

Definition render (w : World) : RenderProps :=
  {| rp_error := RecorderErrors (error w);
     rp_mediaBlobUrl := mediaBlobUrl w;
     rp_status := status w;
     rp_isAudioMuted := isAudioMuted w;
     rp_previewStream := mediaStream w |}.


(** ** The mount effect

    [useEffect] of the hook: the checks on the runtime, and in the state
    variant the first acquisition.  The runtime is what the effect asks the
    browser: whether [window.MediaRecorder] and [getDisplayMedia] exist, the
    constraint keys that [getSupportedConstraints()] reports as true, and
    [MediaRecorder.isTypeSupported].  [console.error] does not touch the
    session: the messages are what the effect returns. *)
Record Runtime : Type := {
  has_MediaRecorder : bool;
  has_getDisplayMedia : bool;
  supportedConstraints : list string;
  isTypeSupported : string -> bool
}.

(** [mediaRecorderOptions]: only the member the hook reads. *)
Record MediaRecorderOptions : Type := {
  mimeType : option string
}.

(** [Object.keys(mediaType).filter((constraint) => !supported[constraint])] *)
Definition unSupportedConstraints (rt : Runtime) (mediaType : MediaTrackConstraints)
  : list string :=
  filter (fun constraint =>
            negb (existsb (String.eqb constraint) (supportedConstraints rt)))
         mediaType.

(** [checkConstraints(mediaType)]: the messages it logs. *)
Definition checkConstraints (rt : Runtime) (mediaType : MediaTrackConstraints)
  : list string :=
  match unSupportedConstraints rt mediaType with
  | [] => []
  | unsupported =>
    [ "The constraints " ++ String.concat "," unsupported ++
      " doesn't support on this browser. Please check your ReactMediaRecorder component." ]
  end.

Definition mime_message : string :=
  "The specified MIME type you supplied for MediaRecorder doesn't support this browser".

Section Mount.

Variable v : Variant.
Variable props : Props.
Variable mediaRecorderOptions : option MediaRecorderOptions.

(** The effect that checks the runtime.  In the state variant it ends with
    [if (!mediaStream) getMediaStream()]; the ref variant acquires in an
    effect of its own, [acquireEffect]. *)
Definition mountEffect (rt : Runtime) (d : MediaDevices) : M (list string) :=
  if negb (has_MediaRecorder rt) then
    setError "UnsupportedBrowserError" ;;
    ret []
  else
    (if screen props && negb (has_getDisplayMedia rt)
     then throw "Error"
     else ret tt) ;;
    let audio_messages :=
      match audio props with
      | spec_constraints c => checkConstraints rt c
      | spec_bool _ => []
      end in
    let video_messages :=
      match video props with
      | spec_constraints c => checkConstraints rt c
      | spec_bool _ => []
      end in
    let mime_messages :=
      match mediaRecorderOptions with
      | Some options =>
        match mimeType options with
        | Some type =>
          if String.eqb type "" then []
          else if isTypeSupported rt type then [] else [mime_message]
        | None => []
        end
      | None => []
      end in
    match v with
    | StateStream =>
      held <- gets mediaStream ;;
      match held with
      | None => getMediaStream v props d
      | Some _ => ret tt
      end
    | RefStream => ret tt
    end ;;
    ret (audio_messages ++ video_messages ++ mime_messages)%list.

(** The second effect of the ref variant: [getMediaStream()]. *)
Definition acquireEffect (d : MediaDevices) : M unit := getMediaStream v props d.

End Mount.

(** ** Media permissions

    [useQueryMediaPermissions] and [useRequestUserMedia], with the session
    storage they share. *)
Inductive MediaPermissions : Type := Granted | Denied | Prompt.

(** The string value of a member of [enum MediaPermissions]. *)
Definition MediaPermissions_value (p : MediaPermissions) : string :=
  match p with
  | Granted => "granted"
  | Denied => "denied"
  | Prompt => "prompt"
  end.

Definition MEDIA_PERMISSIONS_KEY : string :=
  "react-media-recorder.media-permissions".

(** [window.sessionStorage]: keys and values, one entry per key. *)
Definition Storage : Type := list (string * string).

Fixpoint getItem (key : string) (s : Storage) : option string :=
  match s with
  | [] => None
  | (k, value) :: rest => if String.eqb k key then Some value else getItem key rest
  end.

Fixpoint removeItem (key : string) (s : Storage) : Storage :=
  match s with
  | [] => []
  | (k, value) :: rest =>
    if String.eqb k key then removeItem key rest
    else (k, value) :: removeItem key rest
  end.

Definition setItem (key value : string) (s : Storage) : Storage :=
  (key, value) :: removeItem key s.

(** [setMediaPermissions(permissions)] *)
Definition setMediaPermissions (permissions : MediaPermissions) (s : Storage)
  : Storage :=
  setItem MEDIA_PERMISSIONS_KEY (MediaPermissions_value permissions) s.

(** [getMediaPermissions()] *)
Definition getMediaPermissions (s : Storage) : MediaPermissions :=
  match getItem MEDIA_PERMISSIONS_KEY s with
  | Some permissions =>
    if String.eqb permissions (MediaPermissions_value Prompt) then Prompt
    else if String.eqb permissions (MediaPermissions_value Granted) then Granted
    else if String.eqb permissions (MediaPermissions_value Denied) then Denied
    else Prompt
  | None => Prompt
  end.

(** [navigator.permissions.query({ name })]: the state of the permission,
    or a rejection with an error of some name. *)
Inductive PermissionState : Type := ps_granted | ps_denied | ps_prompt.

Definition PermissionsApi : Type := string -> PermissionState + string.

Definition is_granted (s : PermissionState) : bool :=
  match s with ps_granted => true | _ => false end.

Definition is_prompt (s : PermissionState) : bool :=
  match s with ps_prompt => true | _ => false end.

(** The callback of [useQueryMediaPermissions]. *)
Definition queryMediaPermissions (api : PermissionsApi) (s : Storage)
  : MediaPermissions :=
  match api "microphone" with
  | inl microphone =>
    match api "camera" with
    | inl camera =>
      if is_granted camera && is_granted microphone then Granted
      else if is_prompt camera || is_prompt microphone then Prompt
      else Denied
    | inr _ => getMediaPermissions s
    end
  | inr _ => getMediaPermissions s
  end.

(** The callback of [useRequestUserMedia]: what it returns, the storage it
    leaves, and the stream it was granted, as it leaves it. *)
Definition requestUserMedia (d : MediaDevices) (api : PermissionsApi) (s : Storage)
  : MediaPermissions * Storage * option MediaStream :=
  match getUserMedia d {| c_audio := Some (spec_bool true);
                          c_video := Some (spec_bool true) |} with
  | inl stream =>
    let released := stop_all_tracks stream in
    let s' := setMediaPermissions Granted s in
    (queryMediaPermissions api s', s', Some released)
  | inr _ => (Denied, s, None)
  end.
(** * Vocabulary of the statements *)

(** The recorder held by the hook exists and is in state [st]. *)
Definition recorder_in (st : RecordingState) (w : World) : Prop :=
  exists r, mediaRecorder w = Some r /\ state r = st.

(** Everything but the recorder is the same in both worlds. *)
Definition same_but_recorder (w w' : World) : Prop :=
  mediaChunks w' = mediaChunks w /\
  mediaStream w' = mediaStream w /\
  status w' = status w /\
  isAudioMuted w' = isAudioMuted w /\
  mediaBlobUrl w' = mediaBlobUrl w /\
  error w' = error w /\
  blobStore w' = blobStore w /\
  effects w' = effects w.

(** Track [t'] is track [t] after its stream's audio tracks were given the
    enabled flag [b]: same kind, same ready state, and the flag is [b] on
    an audio track and untouched on any other. *)
Definition track_after (b : bool) (t t' : MediaStreamTrack) : Prop :=
  kind t' = kind t /\
  readyState t' = readyState t /\
  enabled t' = if is_audio t then b else enabled t.

(** Every audio track of the stream is enabled. *)
Definition audio_all_enabled (s : MediaStream) : Prop :=
  forall t, In t s -> kind t = kind_audio -> enabled t = true.

(** The name under which the capture attempt of [getMediaStream] is
    rejected, if it is: the attempt asks the capability for a display
    stream, then for an audio stream when audio is wanted too, or for one
    user-media stream; a custom stream asks for nothing. *)
Definition rejection (p : Props) (d : MediaDevices) : option string :=
  match customMediaStream p with
  | Some _ => None
  | None =>
    if screen p then
      match getDisplayMedia d
              {| c_audio := None;
                 c_video := Some (if truthy (video p) then video p
                                  else spec_bool true) |} with
      | inr name => Some name
      | inl _ =>
        if truthy (audio p) then
          match getUserMedia d {| c_audio := Some (audio p); c_video := None |} with
          | inr name => Some name
          | inl _ => None
          end
        else None
      end
    else
      match getUserMedia d {| c_audio := Some (audio p); c_video := Some (video p) |} with
      | inr name => Some name
      | inl _ => None
      end
  end.

(** The type the finalize handler gives the output, from the props and the
    first chunk: the members of the property bag in force (the configured
    one, else the default for the video setting) are assigned over
    [{ type: chunk.type }]. *)
Definition output_type (p : Props) (chunk : Blob) : string :=
  match blobPropertyBag p with
  | Some bag =>
    match bag_type bag with
    | Some t => t
    | None => blob_type chunk
    end
  | None => if truthy (video p) then "video/mp4" else "audio/wav"
  end.


(** * Sample sessions *)

Definition mic_track : MediaStreamTrack :=
  {| kind := kind_audio; enabled := true; readyState := live |}.

Definition camera_track : MediaStreamTrack :=
  {| kind := kind_video; enabled := true; readyState := live |}.

(** A capability that grants every request. *)
Definition granting_devices : MediaDevices :=
  {| getUserMedia := fun _ => inl [mic_track];
     getDisplayMedia := fun _ => inl [camera_track] |}.

(** A capability that rejects every request with the given name. *)
Definition rejecting_devices (name : string) : MediaDevices :=
  {| getUserMedia := fun _ => inr name;
     getDisplayMedia := fun _ => inr name |}.

Definition chunk_a : Blob :=
  {| blob_data := [x01; x02]; blob_type := "audio/webm" |}.


(** A session that holds a live microphone stream and nothing else. *)
Definition world_with_mic : World :=
  with_mediaStream (Some [mic_track]) initial_world.

(** A stream whose one audio track is disabled before the hook touches it. *)
Definition world_with_disabled_mic : World :=
  with_mediaStream
    (Some [ {| kind := kind_audio; enabled := false; readyState := live |} ])
    initial_world.

(** A session whose stream has an ended microphone track next to a live
    camera track. *)
Definition world_with_half_ended : World :=
  with_mediaStream
    (Some [ {| kind := kind_audio; enabled := true; readyState := ended |};
            camera_track ])
    initial_world.

(** * Vocabulary of the further statements *)

(** The attempt of [getMediaStream] is made: the ref variant makes none
    while it holds a stream. *)
Definition attempts (v : Variant) (w : World) : Prop :=
  v = RefStream -> mediaStream w = None.

(** The status values set, in order. *)
Fixpoint status_updates (es : list Effect) : list StatusMessages :=
  match es with
  | [] => []
  | SetStatus s :: rest => s :: status_updates rest
  | _ :: rest => status_updates rest
  end.

(** The calls of the consumer's [onStop], in order, with their arguments. *)
Fixpoint onStop_calls (es : list Effect) : list (string * Blob) :=
  match es with
  | [] => []
  | CallOnStop url blob :: rest => (url, blob) :: onStop_calls rest
  | _ :: rest => onStop_calls rest
  end.

(** The requests made to the capture capability, in order. *)
Fixpoint capture_requests (es : list Effect) : list Effect :=
  match es with
  | [] => []
  | CallGetUserMedia c :: rest => CallGetUserMedia c :: capture_requests rest
  | CallGetDisplayMedia c :: rest => CallGetDisplayMedia c :: capture_requests rest
  | _ :: rest => capture_requests rest
  end.

(** The URL store and the [onStop] calls agree: the i-th call was made with
    the i-th URL and with the blob registered under it. *)
Definition calls_match_store (w : World) : Prop :=
  List.map snd (onStop_calls (effects w)) = blobStore w /\
  List.map fst (onStop_calls (effects w)) =
    List.map object_url (seq 0 (List.length (blobStore w))).

(** The URL shown, if any, is one that was handed to [onStop]. *)
Definition shown_url_was_handed (w : World) : Prop :=
  forall u, mediaBlobUrl w = Some u ->
            exists blob, In (u, blob) (onStop_calls (effects w)).


(** Two streams are made of the same tracks, up to the enabled flag and
    the ready state of each. *)
Definition same_tracks (s s' : MediaStream) : Prop :=
  List.map kind s' = List.map kind s.

(** All tracks of the stream have ended. *)
Definition all_ended (s : MediaStream) : Prop :=
  forall t, In t s -> readyState t = ended.


(** A run of permission requests, each with the capability and the
    permissions interface as they are at that time; the storage left. *)
Fixpoint request_all (rs : list (MediaDevices * PermissionsApi)) (s : Storage)
  : Storage :=
  match rs with
  | [] => s
  | (d, api) :: rest =>
    match requestUserMedia d api s with
    | (_, s', _) => request_all rest s'
    end
  end.

(** A permissions interface that rejects every query. *)
Definition no_permissions_api : PermissionsApi := fun _ => inr "TypeError".

(** * Properties *)

(** Unfolding of the monad and of the primitive operations. *)
Ltac unfold_hook :=
  cbv beta iota zeta delta
    [exec completes bind ret throw try_catch gets modify
     setStatus setError setMediaStream setIsAudioMuted setMediaBlobUrl
     onStart onStop recorder_method on_stream createObjectURL
     await_getUserMedia await_getDisplayMedia fst snd] in *.

(** Case analysis on the innermost scrutinees the goal still matches on. *)
Ltac split_match :=
  repeat match goal with
         | |- context [match ?x with _ => _ end] =>
           lazymatch x with
           | context [match _ with _ => _ end] => fail
           | _ => destruct x eqn:?; cbv beta iota zeta
           end
         end.

(** ** Pause and resume *)

Lemma pauseRecording_idle_recorder (w : World) :
  ~ recorder_in rs_recording w -> pauseRecording w = (Normal tt, w).
Proof.
  intros H. unfold pauseRecording. unfold_hook.
  destruct (mediaRecorder w) as [r|] eqn:Hr; [|reflexivity].
  destruct (state r) eqn:Hs; try reflexivity.
  exfalso. apply H. exists r. split; [exact Hr | exact Hs].
Qed.

Lemma resumeRecording_idle_recorder (w : World) :
  ~ recorder_in rs_paused w -> resumeRecording w = (Normal tt, w).
Proof.
  intros H. unfold resumeRecording. unfold_hook.
  destruct (mediaRecorder w) as [r|] eqn:Hr; [|reflexivity].
  destruct (state r) eqn:Hs; try reflexivity.
  exfalso. apply H. exists r. split; [exact Hr | exact Hs].
Qed.

Lemma pauseRecording_frame (w : World) :
  completes pauseRecording w = true /\
  same_but_recorder w (exec pauseRecording w).
Proof.
  unfold pauseRecording, same_but_recorder. unfold_hook.
  destruct (mediaRecorder w) as [r|]; [destruct (state r)|]; simpl; intuition.
Qed.

Lemma resumeRecording_frame (w : World) :
  completes resumeRecording w = true /\
  same_but_recorder w (exec resumeRecording w).
Proof.
  unfold resumeRecording, same_but_recorder. unfold_hook.
  destruct (mediaRecorder w) as [r|]; [destruct (state r)|]; simpl; intuition.
Qed.

(** C8. [pauseRecording] leaves the whole session as it is, and does not
    throw, unless a recorder exists whose state is ["recording"];
    [resumeRecording] likewise unless a recorder exists whose state is
    ["paused"].  In every world, whether they act or not, neither throws
    and neither changes the status or the error shown to the consumer
    (nor anything else than the recorder). *)
Theorem pause_resume_noop_and_frame (w : World) :
  (~ recorder_in rs_recording w -> pauseRecording w = (Normal tt, w)) /\
  (~ recorder_in rs_paused w -> resumeRecording w = (Normal tt, w)) /\
  (completes pauseRecording w = true /\
   completes resumeRecording w = true) /\
  (rp_status (render (exec pauseRecording w)) = rp_status (render w) /\
   rp_error (render (exec pauseRecording w)) = rp_error (render w) /\
   same_but_recorder w (exec pauseRecording w)) /\
  (rp_status (render (exec resumeRecording w)) = rp_status (render w) /\
   rp_error (render (exec resumeRecording w)) = rp_error (render w) /\
   same_but_recorder w (exec resumeRecording w)).
Proof.
  destruct (pauseRecording_frame w) as [Hpc Hp].
  destruct (resumeRecording_frame w) as [Hrc Hr].
  split; [apply pauseRecording_idle_recorder|].
  split; [apply resumeRecording_idle_recorder|].
  split; [split; assumption|].
  unfold render; simpl.
  destruct Hp as (Hp1 & Hp2 & Hp3 & Hp4 & Hp5 & Hp6 & Hp7 & Hp8).
  destruct Hr as (Hr1 & Hr2 & Hr3 & Hr4 & Hr5 & Hr6 & Hr7 & Hr8).
  unfold same_but_recorder.
  rewrite Hp6, Hr6.
  repeat split; assumption.
Qed.

Lemma pause_resume_noop_and_frame_witness :
  pauseRecording initial_world = (Normal tt, initial_world) /\
  resumeRecording initial_world = (Normal tt, initial_world).
Proof.
  destruct (pause_resume_noop_and_frame initial_world) as (Hp & Hr & _).
  split; [apply Hp | apply Hr]; intros (r & Hr' & _); discriminate Hr'.
Defined.

(** When the guard holds the recorder does move: the calls are not no-ops
    across the board. *)
Lemma pauseRecording_acts (w : World) (r : MediaRecorder) :
  mediaRecorder w = Some r -> state r = rs_recording ->
  mediaRecorder (exec pauseRecording w) = Some (recorder_set_state rs_paused r).
Proof.
  intros Hr Hs. unfold pauseRecording. unfold_hook.
  rewrite Hr, Hs. simpl. rewrite Hr. reflexivity.
Qed.

Lemma resumeRecording_acts (w : World) (r : MediaRecorder) :
  mediaRecorder w = Some r -> state r = rs_paused ->
  mediaRecorder (exec resumeRecording w) = Some (recorder_set_state rs_recording r).
Proof.
  intros Hr Hs. unfold resumeRecording. unfold_hook.
  rewrite Hr, Hs. simpl. rewrite Hr. reflexivity.
Qed.

(** ** Stop without an active recorder *)

(** C9. With no recorder, or with a recorder whose state is ["inactive"],
    [stopRecording] does nothing at all: the world is returned as it was,
    so status, error, chunk buffer and the tracks of the stream are
    unchanged. *)
Theorem stopRecording_noop (props : Props) (w : World) :
  mediaRecorder w = None \/ recorder_in rs_inactive w ->
  stopRecording props w = (Normal tt, w) /\
  status (exec (stopRecording props) w) = status w /\
  error (exec (stopRecording props) w) = error w /\
  mediaChunks (exec (stopRecording props) w) = mediaChunks w /\
  mediaStream (exec (stopRecording props) w) = mediaStream w.
Proof.
  intros H.
  assert (E : stopRecording props w = (Normal tt, w)).
  { unfold stopRecording. unfold_hook.
    destruct H as [Hn | (r & Hr & Hs)].
    - rewrite Hn. reflexivity.
    - rewrite Hr, Hs. reflexivity. }
  unfold exec. rewrite E. simpl. repeat split; reflexivity.
Qed.

Lemma stopRecording_noop_witness :
  stopRecording default_props initial_world = (Normal tt, initial_world).
Proof.
  apply (stopRecording_noop default_props initial_world).
  left. reflexivity.
Defined.

(** ** What acquisition and start leave alone *)

(** [getMediaStream] never throws: a rejection is caught.  It touches the
    stream, the status and the error, nothing else; it does not drop a
    stream that is held. *)
Lemma getMediaStream_frame (v : Variant) (p : Props) (d : MediaDevices) (w : World) :
  let w' := exec (getMediaStream v p d) w in
  completes (getMediaStream v p d) w = true /\
  mediaRecorder w' = mediaRecorder w /\
  mediaChunks w' = mediaChunks w /\
  isAudioMuted w' = isAudioMuted w /\
  mediaBlobUrl w' = mediaBlobUrl w /\
  blobStore w' = blobStore w /\
  (mediaStream w <> None -> mediaStream w' <> None).
Proof.
  unfold getMediaStream. unfold_hook.
  split_match; repeat split; try reflexivity; try discriminate; auto;
    congruence.
Qed.

(** In the state variant [getMediaStream] always announces itself: the
    first thing it does is set the status to ["acquiring_media"]. *)
Lemma getMediaStream_announces (p : Props) (d : MediaDevices) (w : World) :
  exists rest,
    effects (exec (getMediaStream StateStream p d) w) =
      (effects w ++ SetStatus acquiring_media :: rest)%list.
Proof.
  unfold getMediaStream. unfold_hook.
  split_match; simpl; rewrite <- ?app_assoc; simpl; eexists; reflexivity.
Qed.

(** ** Rejected acquisition *)




(** ** Recorder error *)

(** C7, as the code has it.  On a recorder error event the handler sets the
    error to NO_RECORDER, which the consumer reads as ["recorder_error"],
    and the status to ["idle"], and it does not throw.  It calls nothing on
    the recorder and leaves the chunk buffer alone: recorder, chunks,
    stream, output URL and mute flag are as before the event. *)
Theorem onRecorderError_sets_error_and_idle_only (w : World) :
  let w' := exec onRecorderError w in
  completes onRecorderError w = true /\
  rp_error (render w') = Some "recorder_error" /\
  status w' = idle /\
  effects w' = (effects w ++ [SetStatus idle])%list /\
  mediaRecorder w' = mediaRecorder w /\
  mediaChunks w' = mediaChunks w /\
  mediaStream w' = mediaStream w /\
  mediaBlobUrl w' = mediaBlobUrl w /\
  isAudioMuted w' = isAudioMuted w.
Proof.
  unfold onRecorderError, render. unfold_hook. simpl.
  repeat split; reflexivity.
Qed.

(** C7 as stated fails: a chunk recorded before the error is still in the
    buffer after it, and the recorder's stop event that follows assembles
    it into an output handed to [onStop]. *)
Lemma recorder_error_keeps_partial_chunks :
  let after_error :=
    run StateStream default_props
      [call_startRecording granting_devices; ev_dataavailable chunk_a; ev_error]
      world_with_mic in
  rp_error (render after_error) = Some "recorder_error" /\
  status after_error = idle /\
  mediaChunks after_error = [chunk_a] /\
  mediaChunks after_error <> [] /\
  effects (step StateStream default_props after_error ev_stop) =
    [SetStatus recording; SetStatus idle; SetStatus stopped;
     CallOnStop "blob:0" {| blob_data := [x01; x02]; blob_type := "audio/wav" |}].
Proof.
  vm_compute. repeat split; try reflexivity. discriminate.
Qed.

(** ** Mute and unmute *)

Lemma set_audio_enabled_tracks (b : bool) (s : MediaStream) :
  Forall2 (track_after b) s (set_audio_enabled b s).
Proof.
  induction s as [|t s IH]; simpl; constructor; [|exact IH].
  unfold track_after, is_audio.
  destruct t as [k e r]; destruct k; simpl; repeat split; reflexivity.
Qed.

Lemma set_audio_enabled_twice (b b' : bool) (s : MediaStream) :
  set_audio_enabled b' (set_audio_enabled b s) = set_audio_enabled b' s.
Proof.
  induction s as [|t s IH]; simpl; [reflexivity|].
  rewrite IH. f_equal.
  destruct t as [k e r]; destruct k; reflexivity.
Qed.

Lemma set_audio_enabled_fixes (s : MediaStream) :
  set_audio_enabled true s = s <-> audio_all_enabled s.
Proof.
  unfold audio_all_enabled.
  induction s as [|t s IH]; simpl.
  - split; [intros _ t [] | reflexivity].
  - split.
    + intros H. injection H as Ht Hs. intros t' [<-|Hin] Hk.
      * unfold is_audio in Ht. rewrite Hk in Ht.
        rewrite <- Ht. reflexivity.
      * apply IH; assumption.
    + intros H. f_equal.
      * destruct t as [k e r]. unfold is_audio; simpl.
        destruct k; [|reflexivity].
        unfold track_set_enabled; simpl.
        pose proof (H _ (or_introl eq_refl) eq_refl) as He. simpl in He.
        rewrite He. reflexivity.
      * apply IH. intros t' Hin. apply H. right. exact Hin.
Qed.

Lemma muteAudio_effect (mute : bool) (w : World) :
  muteAudio mute w =
    (Normal tt,
     with_mediaStream (option_map (set_audio_enabled (negb mute)) (mediaStream w))
       (with_isAudioMuted mute w)).
Proof. reflexivity. Qed.

(** Without a stream the call sets the flag and nothing else. *)
Lemma muteAudio_without_stream (mute : bool) (w : World) :
  mediaStream w = None ->
  exec (muteAudio mute) w = with_isAudioMuted mute w.
Proof.
  intros H. unfold exec. rewrite muteAudio_effect. simpl. rewrite H.
  destruct w; simpl in *; subst; reflexivity.
Qed.

(** C10, as the code has it.  On a session that holds a stream,
    [muteAudio] sets [isAudioMuted] and disables every audio track,
    [unMuteAudio] clears the flag and enables every audio track; other
    tracks, and the kind and ready state of all tracks, are not touched.
    After mute then unmute every audio track is enabled, which is the
    stream as it was exactly when every audio track was enabled to begin
    with.  Neither call throws, touches the recorder, or changes the
    status. *)
Theorem muteAudio_unMuteAudio_tracks (w : World) (s : MediaStream) :
  mediaStream w = Some s ->
  let muted := exec (muteAudio true) w in
  let unmuted := exec (muteAudio false) muted in
  (isAudioMuted muted = true /\
   exists s1, mediaStream muted = Some s1 /\ Forall2 (track_after false) s s1) /\
  (isAudioMuted (exec (muteAudio false) w) = false /\
   exists s1, mediaStream (exec (muteAudio false) w) = Some s1 /\
              Forall2 (track_after true) s s1) /\
  (isAudioMuted unmuted = false /\
   exists s2, mediaStream unmuted = Some s2 /\
              Forall2 (track_after true) s s2 /\
              (s2 = s <-> audio_all_enabled s)) /\
  (completes (muteAudio true) w = true /\
   completes (muteAudio false) muted = true) /\
  (mediaRecorder muted = mediaRecorder w /\
   mediaRecorder unmuted = mediaRecorder w /\
   status unmuted = status w /\
   effects unmuted = effects w /\
   mediaChunks unmuted = mediaChunks w).
Proof.
  intros Hs muted unmuted. subst muted unmuted.
  unfold exec, completes. rewrite !muteAudio_effect. simpl.
  rewrite Hs. simpl.
  repeat split.
  - eexists; split; [reflexivity|]. apply set_audio_enabled_tracks.
  - eexists; split; [reflexivity|]. apply set_audio_enabled_tracks.
  - eexists; split; [reflexivity|].
    rewrite set_audio_enabled_twice.
    split; [apply set_audio_enabled_tracks | apply set_audio_enabled_fixes].
Qed.

Lemma muteAudio_unMuteAudio_tracks_witness :
  mediaStream (exec (muteAudio false) (exec (muteAudio true) world_with_mic))
  = Some [mic_track].
Proof.
  destruct (muteAudio_unMuteAudio_tracks world_with_mic [mic_track] eq_refl)
    as (_ & _ & (_ & s2 & Hs2 & _ & Hiff) & _).
  rewrite Hs2. f_equal. apply Hiff.
  intros t [<-|[]] _. reflexivity.
Defined.

(** C10 as stated fails: an audio track that was disabled before the mute
    comes out of mute-then-unmute enabled, not as it was. *)
Lemma muteAudio_unMuteAudio_not_restoring :
  let w := world_with_disabled_mic in
  let w' := exec (muteAudio false) (exec (muteAudio true) w) in
  mediaStream w = Some [ {| kind := kind_audio; enabled := false; readyState := live |} ] /\
  mediaStream w' = Some [ {| kind := kind_audio; enabled := true; readyState := live |} ] /\
  mediaStream w' <> mediaStream w.
Proof.
  vm_compute. repeat split; discriminate.
Qed.

(** ** Finalize *)

Lemma object_url_inj (n m : nat) : object_url n = object_url m -> n = m.
Proof.
  unfold object_url. simpl. intros H. injection H as H.
  apply Unsigned.to_uint_inj.
  assert (E : NilEmpty.uint_of_string (NilEmpty.string_of_uint (Nat.to_uint n)) =
              NilEmpty.uint_of_string (NilEmpty.string_of_uint (Nat.to_uint m))).
  { rewrite H. reflexivity. }
  rewrite !NilEmpty.usu in E. injection E as E. exact E.
Qed.

(** The handler on an empty buffer: the read of [chunk.type] throws before
    anything is written. *)
Lemma onRecordingStop_empty (p : Props) (w : World) :
  mediaChunks w = [] -> onRecordingStop p w = (Throw "TypeError", w).
Proof.
  intros H. unfold onRecordingStop. unfold_hook. rewrite H. reflexivity.
Qed.

(** The handler on a buffer that holds a chunk. *)
Lemma onRecordingStop_chunks (p : Props) (w : World) (c : Blob) (cs : list Blob) :
  mediaChunks w = c :: cs ->
  let blob := {| blob_data := List.concat (List.map blob_data (c :: cs));
                 blob_type := output_type p c |} in
  let url := object_url (List.length (blobStore w)) in
  onRecordingStop p w =
    (Normal tt,
     emit (CallOnStop url blob)
       (with_mediaBlobUrl (Some url)
          (emit (SetStatus stopped)
             (with_status stopped
                (with_blobStore (blobStore w ++ [blob]) w))))).
Proof.
  intros H. unfold onRecordingStop, output_type, new_Blob, Object_assign.
  unfold_hook. rewrite H. simpl.
  destruct (blobPropertyBag p) as [bag|].
  - destruct (bag_type bag); reflexivity.
  - destruct (truthy (video p)); reflexivity.
Qed.




(** *** Output URLs along a run *)






(** ** Start *)

(** [startRecording] on a session that holds stream [s]: the recorder cell
    gets a fresh recorder built on [s] and started, and the status is set
    to ["recording"] last.  Before that, the state variant runs
    [getMediaStream] when a track of [s] has ended; otherwise, and always in
    the ref variant, nothing runs in between and the stream stays [s].  The
    chunk buffer, the URL store and the output URL are not touched. *)
Lemma startRecording_with_stream
  (v : Variant) (p : Props) (d : MediaDevices) (w : World) (s : MediaStream) :
  mediaStream w = Some s ->
  let w' := exec (startRecording v p d) w in
  completes (startRecording v p d) w = true /\
  mediaRecorder w' = Some {| state := rs_recording; stream := s |} /\
  status w' = recording /\
  mediaChunks w' = mediaChunks w /\
  mediaStream w' <> None /\
  exists mid,
    effects w' = (effects w ++ mid ++ [SetStatus recording])%list /\
    match v with
    | StateStream =>
      if existsb is_ended s
      then exists rest, mid = SetStatus acquiring_media :: rest
      else mid = [] /\ mediaStream w' = Some s
    | RefStream => mid = [] /\ mediaStream w' = Some s
    end.
Proof.
  intros Hs. unfold startRecording. unfold_hook. simpl. rewrite Hs.
  assert (Hplain :
    let w1 := with_error "NONE" w in
    let w' := emit (SetStatus recording)
                (with_status recording
                   (with_mediaRecorder
                      (option_map (recorder_set_state rs_recording)
                         (Some (new_MediaRecorder s))) w1)) in
    mediaRecorder w' = Some {| state := rs_recording; stream := s |} /\
    status w' = recording /\ mediaChunks w' = mediaChunks w /\
    mediaStream w' <> None /\
    effects w' = (effects w ++ [] ++ [SetStatus recording])%list /\
    mediaStream w' = Some s).
  { simpl. rewrite Hs. repeat split; try reflexivity. discriminate. }
  destruct v.
  - destruct (existsb is_ended s) eqn:He.
    + pose proof (getMediaStream_frame StateStream p d (with_error "NONE" w)) as F.
      destruct (getMediaStream_announces p d (with_error "NONE" w)) as [rest R].
      unfold exec, completes in F, R.
      destruct (getMediaStream StateStream p d (with_error "NONE" w)) as [c w1].
      simpl in F, R.
      destruct F as (Fc & Fr & Fk & _ & _ & _ & Fs).
      destruct c as [[]|n]; [|discriminate Fc]. simpl.
      repeat split; try reflexivity.
      * exact Fk.
      * apply Fs. rewrite Hs. discriminate.
      * exists (SetStatus acquiring_media :: rest). split.
        -- rewrite R. rewrite <- !app_assoc. reflexivity.
        -- exists rest. reflexivity.
    + simpl. destruct Hplain as (H1 & H2 & H3 & H4 & H5 & H6).
      repeat split; try assumption.
      exists []. repeat split; assumption.
  - simpl. destruct Hplain as (H1 & H2 & H3 & H4 & H5 & H6).
    repeat split; try assumption.
    exists []. repeat split; assumption.
Qed.

(** The ref variant never re-acquires in [startRecording], whatever the
    ready state of the tracks. *)
Lemma startRecording_ref_never_reacquires
  (p : Props) (d : MediaDevices) (w : World) (s : MediaStream) :
  mediaStream w = Some s ->
  effects (exec (startRecording RefStream p d) w) =
    (effects w ++ [SetStatus recording])%list /\
  mediaStream (exec (startRecording RefStream p d) w) = Some s.
Proof.
  intros Hs.
  destruct (startRecording_with_stream RefStream p d w s Hs)
    as (_ & _ & _ & _ & _ & mid & He & -> & Hm).
  split; [exact He | exact Hm].
Qed.




(** ** Stop, and the cycle from stop to finalize *)



(** [stopRecording] on an active recorder: status ["stopping"], the
    recorder told to stop, and the buffer replaced by an empty one, whatever
    it held. *)
Lemma stopRecording_active (p : Props) (w : World) (r : MediaRecorder) :
  mediaRecorder w = Some r -> state r <> rs_inactive ->
  let w' := exec (stopRecording p) w in
  completes (stopRecording p) w = true /\
  mediaChunks w' = [] /\
  status w' = stopping /\
  effects w' = (effects w ++ [SetStatus stopping])%list /\
  mediaRecorder w' = Some (recorder_set_state rs_inactive r) /\
  blobStore w' = blobStore w /\
  mediaBlobUrl w' = mediaBlobUrl w.
Proof.
  intros Hr Hs. unfold stopRecording. unfold_hook. rewrite Hr.
  destruct (state r) eqn:E; [congruence| |];
    destruct (stopStreamsOnStop p); simpl; rewrite ?Hr;
    repeat split; reflexivity.
Qed.


(** ** Two starts without a stop in between *)







(** ** The finalize handler in a session *)




(** ** The buffer at finalize *)

(** Finalize reads the buffer as it is when the stop event fires.  Right
    after a [stopRecording] that found the recorder active the buffer is
    empty, whatever was recorded, and a finalize on it throws. *)
Lemma finalize_right_after_stop_throws
  (p : Props) (w : World) (r : MediaRecorder) :
  mediaRecorder w = Some r -> state r <> rs_inactive ->
  onRecordingStop p (exec (stopRecording p) w) =
    (Throw "TypeError", exec (stopRecording p) w).
Proof.
  intros Hr Hs. apply onRecordingStop_empty.
  apply (stopRecording_active p w r Hr Hs).
Qed.


(** * Further properties *)

(** ** Acquisition *)

Lemma status_updates_app (l l' : list Effect) :
  status_updates (l ++ l') = (status_updates l ++ status_updates l')%list.
Proof.
  induction l as [|e l IH]; simpl; [reflexivity|].
  destruct e; simpl; rewrite IH; reflexivity.
Qed.

Lemma capture_requests_app (l l' : list Effect) :
  capture_requests (l ++ l') = (capture_requests l ++ capture_requests l')%list.
Proof.
  induction l as [|e l IH]; simpl; [reflexivity|].
  destruct e; simpl; rewrite IH; reflexivity.
Qed.

Lemma onStop_calls_app (l l' : list Effect) :
  onStop_calls (l ++ l') = (onStop_calls l ++ onStop_calls l')%list.
Proof.
  induction l as [|e l IH]; simpl; [reflexivity|].
  destruct e; simpl; rewrite IH; reflexivity.
Qed.

(** The status updates of an attempt. *)
Lemma getMediaStream_attempt_statuses
  (v : Variant) (p : Props) (d : MediaDevices) (w : World) :
  attempts v w ->
  status_updates (effects (exec (getMediaStream v p d) w)) =
    (status_updates (effects w) ++ [acquiring_media; idle])%list /\
  status (exec (getMediaStream v p d) w) = idle.
Proof.
  intros Ha. split.
  - unfold getMediaStream. unfold_hook.
    destruct v; [| rewrite (Ha eq_refl)];
      split_match; simpl; rewrite !status_updates_app; simpl;
      rewrite <- ?app_assoc; reflexivity.
  - unfold getMediaStream. unfold_hook.
    destruct v; [| rewrite (Ha eq_refl)]; split_match; reflexivity.
Qed.

(** X1. Whenever [getMediaStream] makes its attempt, granted or rejected,
    it does not throw, the status goes to ["acquiring_media"] and then to
    ["idle"], with no other status in between, and the recorder, the chunk
    buffer, the output URL and the mute flag are not touched. *)
Theorem getMediaStream_status_protocol
  (v : Variant) (p : Props) (d : MediaDevices) (w : World) :
  attempts v w ->
  let w' := exec (getMediaStream v p d) w in
  completes (getMediaStream v p d) w = true /\
  status_updates (effects w') =
    (status_updates (effects w) ++ [acquiring_media; idle])%list /\
  status w' = idle /\
  mediaRecorder w' = mediaRecorder w /\
  mediaChunks w' = mediaChunks w /\
  mediaBlobUrl w' = mediaBlobUrl w /\
  isAudioMuted w' = isAudioMuted w.
Proof.
  intros Ha.
  destruct (getMediaStream_frame v p d w) as (Hc & Hr & Hk & Hm & Hu & _ & _).
  destruct (getMediaStream_attempt_statuses v p d w Ha) as [Hs Hi].
  cbv zeta. repeat split; assumption.
Qed.

Lemma getMediaStream_status_protocol_witness :
  status_updates
    (effects (exec (getMediaStream RefStream default_props
                      (rejecting_devices "NotFoundError")) initial_world)) =
  [acquiring_media; idle].
Proof.
  apply (getMediaStream_status_protocol RefStream default_props
           (rejecting_devices "NotFoundError") initial_world).
  intros _. reflexivity.
Defined.

(** X2. With a custom stream in the props, an attempt of [getMediaStream]
    adopts that stream and asks the capture capability for nothing,
    whatever the audio, video and screen settings. *)
Theorem getMediaStream_adopts_custom_stream
  (v : Variant) (p : Props) (d : MediaDevices) (w : World) (custom : MediaStream) :
  customMediaStream p = Some custom ->
  attempts v w ->
  let w' := exec (getMediaStream v p d) w in
  mediaStream w' = Some custom /\
  capture_requests (effects w') = capture_requests (effects w) /\
  error w' = error w /\
  status w' = idle.
Proof.
  intros Hc Ha. unfold getMediaStream. unfold_hook. rewrite Hc.
  destruct v; [| rewrite (Ha eq_refl)];
    destruct (mediaStream w); simpl;
    rewrite ?capture_requests_app; simpl; rewrite ?app_nil_r;
    repeat split; reflexivity.
Qed.

Lemma getMediaStream_adopts_custom_stream_witness :
  let p := {| audio := spec_bool true; video := spec_bool true; screen := true;
              blobPropertyBag := None; customMediaStream := Some [camera_track];
              stopStreamsOnStop := true |} in
  mediaStream (exec (getMediaStream StateStream p (rejecting_devices "AbortError"))
                 initial_world) = Some [camera_track].
Proof.
  cbv zeta.
  apply (getMediaStream_adopts_custom_stream StateStream
           {| audio := spec_bool true; video := spec_bool true; screen := true;
              blobPropertyBag := None; customMediaStream := Some [camera_track];
              stopStreamsOnStop := true |}
           (rejecting_devices "AbortError") initial_world [camera_track]).
  - reflexivity.
  - intros H. discriminate H.
Defined.

(** X3. Screen capture with audio: the display stream is requested first,
    with the video setting of the props (or [true] when that is [false]);
    then an audio-only user stream.  The stream stored is the display
    stream's tracks followed by the audio tracks of the user stream: a
    video track of the user stream is not taken over. *)
Theorem getMediaStream_screen_with_audio
  (v : Variant) (p : Props) (d : MediaDevices) (w : World)
  (display user : MediaStream) :
  customMediaStream p = None ->
  screen p = true ->
  truthy (audio p) = true ->
  attempts v w ->
  let display_request :=
    {| c_audio := None;
       c_video := Some (if truthy (video p) then video p else spec_bool true) |} in
  let audio_request := {| c_audio := Some (audio p); c_video := None |} in
  getDisplayMedia d display_request = inl display ->
  getUserMedia d audio_request = inl user ->
  let w' := exec (getMediaStream v p d) w in
  (exists s, mediaStream w' = Some s /\
             s = (display ++ getAudioTracks user)%list /\
             forall t, In t s <-> In t display \/ (In t user /\ kind t = kind_audio)) /\
  capture_requests (effects w') =
    (capture_requests (effects w) ++
     [CallGetDisplayMedia display_request; CallGetUserMedia audio_request])%list.
Proof.
  intros Hc Hs Ha Hatt dr ar Hd Hu.
  unfold getMediaStream. unfold_hook. rewrite Hc, Hs, Ha.
  fold dr ar. rewrite Hd, Hu.
  assert (Hin : forall t, In t (display ++ getAudioTracks user)%list <->
                          In t display \/ (In t user /\ kind t = kind_audio)).
  { intros t. rewrite in_app_iff. unfold getAudioTracks.
    rewrite filter_In. unfold is_audio.
    destruct (kind t); intuition congruence. }
  destruct v; [| rewrite (Hatt eq_refl)];
    destruct (mediaStream w); simpl;
    rewrite ?capture_requests_app; simpl; rewrite <- ?app_assoc; simpl;
    (split; [eexists; split; [reflexivity | split; [reflexivity | exact Hin]]
            | reflexivity]).
Qed.

Lemma getMediaStream_screen_with_audio_witness :
  let p := {| audio := spec_bool true; video := spec_bool false; screen := true;
              blobPropertyBag := None; customMediaStream := None;
              stopStreamsOnStop := true |} in
  let d := {| getUserMedia := fun _ => inl [mic_track; camera_track];
              getDisplayMedia := fun _ => inl [camera_track] |} in
  exists s, mediaStream (exec (getMediaStream StateStream p d) initial_world) = Some s /\
            s = [camera_track; mic_track].
Proof.
  cbv zeta.
  destruct (getMediaStream_screen_with_audio StateStream
              {| audio := spec_bool true; video := spec_bool false; screen := true;
                 blobPropertyBag := None; customMediaStream := None;
                 stopStreamsOnStop := true |}
              {| getUserMedia := fun _ => inl [mic_track; camera_track];
                 getDisplayMedia := fun _ => inl [camera_track] |}
              initial_world [camera_track] [mic_track; camera_track]
              eq_refl eq_refl eq_refl (fun H => ltac:(discriminate H))
              eq_refl eq_refl) as ((s & Hs & He & _) & _).
  exists s. split; [exact Hs | exact He].
Defined.

(** The core of a rejected attempt: the name is kept and no stream stored. *)
Lemma getMediaStream_rejected_keeps_name
  (v : Variant) (p : Props) (d : MediaDevices) (w : World) (name : string) :
  rejection p d = Some name ->
  attempts v w ->
  error (exec (getMediaStream v p d) w) = name /\
  mediaStream (exec (getMediaStream v p d) w) = mediaStream w.
Proof.
  intros Hrej Ha. unfold getMediaStream, rejection in *. unfold_hook.
  destruct v; [| rewrite (Ha eq_refl)]; simpl;
    destruct (customMediaStream p); try discriminate;
    destruct (screen p); simpl;
    repeat match goal with
           | H : context [match ?x with _ => _ end] |- _ =>
             destruct x eqn:?; simpl in *; try discriminate
           end;
    inversion Hrej; subst; simpl; split; try reflexivity;
    try (rewrite (Ha eq_refl); reflexivity); auto.
Qed.

(** An attempt that is not rejected stores a stream and leaves the error
    as it was. *)
Lemma getMediaStream_granted_core
  (v : Variant) (p : Props) (d : MediaDevices) (w : World) :
  rejection p d = None ->
  attempts v w ->
  error (exec (getMediaStream v p d) w) = error w /\
  mediaStream (exec (getMediaStream v p d) w) <> None.
Proof.
  intros Hrej Ha. unfold getMediaStream, rejection in *. unfold_hook.
  destruct v; [| rewrite (Ha eq_refl)]; simpl;
    destruct (customMediaStream p); simpl;
    try (split; [reflexivity | discriminate]);
    destruct (screen p); simpl;
    repeat match goal with
           | H : context [match ?x with _ => _ end] |- _ =>
             destruct x eqn:?; simpl in *; try discriminate
           end;
    simpl; (split; [reflexivity | discriminate]).
Qed.

(** X4. A granted acquisition stores a stream and does not clear the
    error: after a rejected attempt, a later attempt that is granted leaves
    the consumer reading the error of the rejection, next to the stream. *)
Theorem granted_acquisition_keeps_earlier_error
  (p : Props) (d_rejecting d_granting : MediaDevices) (w : World) (name : string) :
  rejection p d_rejecting = Some name ->
  rejection p d_granting = None ->
  let w' := run StateStream p
              [call_getMediaStream d_rejecting; call_getMediaStream d_granting] w in
  rp_error (render w') = RecorderErrors name /\
  rp_previewStream (render w') <> None /\
  rp_status (render w') = idle.
Proof.
  intros Hr Hg. cbv zeta. unfold run, step. simpl fold_left. simpl handler.
  set (w1 := exec (getMediaStream StateStream p d_rejecting) w).
  assert (Ha : forall x, attempts StateStream x) by (intros x H; discriminate H).
  destruct (getMediaStream_rejected_keeps_name StateStream p d_rejecting w name
              Hr (Ha w)) as [He _].
  destruct (getMediaStream_granted_core StateStream p d_granting w1 Hg (Ha w1))
    as [He' Hs'].
  destruct (getMediaStream_attempt_statuses StateStream p d_granting w1 (Ha w1))
    as (_ & Hst).
  unfold render; simpl. fold w1 in He. rewrite He', He.
  repeat split; assumption.
Qed.

Lemma granted_acquisition_keeps_earlier_error_witness :
  rp_error (render (run StateStream default_props
                      [call_getMediaStream (rejecting_devices "NotAllowedError");
                       call_getMediaStream granting_devices] initial_world))
  = Some "permission_denied".
Proof.
  apply (granted_acquisition_keeps_earlier_error default_props
           (rejecting_devices "NotAllowedError") granting_devices
           initial_world "NotAllowedError"); reflexivity.
Defined.




(** ** Start *)

(** X6. [startRecording] on a session that holds no stream clears the
    error and does nothing else: no acquisition is started, no recorder is
    created and the status does not change. *)
Theorem startRecording_without_stream
  (v : Variant) (p : Props) (d : MediaDevices) (w : World) :
  mediaStream w = None ->
  let w' := exec (startRecording v p d) w in
  completes (startRecording v p d) w = true /\
  rp_error (render w') = Some "" /\
  w' = with_error "NONE" w /\
  status w' = status w /\
  mediaRecorder w' = mediaRecorder w /\
  effects w' = effects w.
Proof.
  intros Hs. unfold startRecording. unfold_hook. simpl. rewrite Hs.
  repeat split; reflexivity.
Qed.

Lemma startRecording_without_stream_witness :
  status (exec (startRecording StateStream default_props granting_devices)
            initial_world) = idle /\
  mediaRecorder (exec (startRecording StateStream default_props granting_devices)
                   initial_world) = None.
Proof.
  destruct (startRecording_without_stream StateStream default_props
              granting_devices initial_world eq_refl)
    as (_ & _ & _ & Hs & Hr & _).
  split; [exact Hs | exact Hr].
Defined.

(** [startRecording] in the state variant, on a stream with an ended
    track: the world is that of [getMediaStream] after the error was
    cleared, with the recorder on the old stream and status
    ["recording"]. *)
Lemma startRecording_after_reacquisition
  (p : Props) (d : MediaDevices) (w : World) (s : MediaStream) :
  mediaStream w = Some s ->
  existsb is_ended s = true ->
  let w1 := exec (getMediaStream StateStream p d) (with_error "NONE" w) in
  let w' := exec (startRecording StateStream p d) w in
  error w' = error w1 /\
  mediaStream w' = mediaStream w1 /\
  status w' = recording /\
  mediaRecorder w' = Some {| state := rs_recording; stream := s |} /\
  effects w' = (effects w1 ++ [SetStatus recording])%list.
Proof.
  intros Hs He.
  pose proof (getMediaStream_frame StateStream p d (with_error "NONE" w)) as F.
  unfold startRecording. unfold_hook. simpl. rewrite Hs, He.
  unfold exec, completes in F.
  destruct (getMediaStream StateStream p d (with_error "NONE" w)) as [c w1].
  simpl in F. destruct F as (Fc & _).
  destruct c as [[]|n]; [|discriminate Fc].
  simpl. repeat split; reflexivity.
Qed.

(** X7. In the state variant, when [startRecording] re-acquires because a
    track of the stream has ended (another one being live still) and the
    attempt is granted, the session shows the new stream, but the recorder
    that is started records the old one: the stream the call found. *)
Theorem startRecording_records_the_stream_it_found
  (p : Props) (d : MediaDevices) (w : World) (old new : MediaStream) :
  mediaStream w = Some old ->
  (exists t, In t old /\ readyState t = ended) ->
  (exists t, In t old /\ readyState t = live) ->
  customMediaStream p = None ->
  screen p = false ->
  getUserMedia d {| c_audio := Some (audio p); c_video := Some (video p) |} = inl new ->
  let w' := exec (startRecording StateStream p d) w in
  rp_previewStream (render w') = Some new /\
  mediaRecorder w' = Some {| state := rs_recording; stream := old |} /\
  status w' = recording /\
  rp_error (render w') = Some "".
Proof.
  intros Hs (t & Hin & Ht) _ Hc Hscr Hg.
  assert (He : existsb is_ended old = true).
  { apply existsb_exists. exists t. split; [exact Hin|].
    unfold is_ended. rewrite Ht. reflexivity. }
  destruct (startRecording_after_reacquisition p d w old Hs He)
    as (Herr & Hms & Hst & Hrec & _).
  cbv zeta. unfold render; simpl. rewrite Herr, Hms.
  assert (Hw1 : error (exec (getMediaStream StateStream p d) (with_error "NONE" w))
                = "NONE" /\
                mediaStream (exec (getMediaStream StateStream p d) (with_error "NONE" w))
                = Some new).
  { unfold getMediaStream. unfold_hook. rewrite Hc, Hscr. simpl.
    rewrite Hg. simpl. split; reflexivity. }
  destruct Hw1 as [-> ->].
  repeat split; assumption.
Qed.

Lemma startRecording_records_the_stream_it_found_witness :
  let w' := exec (startRecording StateStream default_props granting_devices)
              world_with_half_ended in
  rp_previewStream (render w') = Some [mic_track] /\
  mediaRecorder w' =
    Some {| state := rs_recording;
            stream := [ {| kind := kind_audio; enabled := true; readyState := ended |};
                        camera_track ] |}.
Proof.
  cbv zeta.
  destruct (startRecording_records_the_stream_it_found default_props
              granting_devices world_with_half_ended
              [ {| kind := kind_audio; enabled := true; readyState := ended |};
                camera_track ]
              [mic_track] eq_refl) as (Hp & Hr & _).
  - eexists. split; [left; reflexivity | reflexivity].
  - eexists. split; [right; left; reflexivity | reflexivity].
  - reflexivity.
  - reflexivity.
  - reflexivity.
  - split; [exact Hp | exact Hr].
Defined.

(** X8. In the state variant, when [startRecording] re-acquires because a
    track has ended (another one being live still) and the attempt is
    rejected, recording starts all the same, on the stream that was held:
    the status is ["recording"] while the consumer reads the error of the
    rejection. *)
Theorem startRecording_records_despite_rejection
  (p : Props) (d : MediaDevices) (w : World) (s : MediaStream) (name : string) :
  mediaStream w = Some s ->
  (exists t, In t s /\ readyState t = ended) ->
  (exists t, In t s /\ readyState t = live) ->
  rejection p d = Some name ->
  let w' := exec (startRecording StateStream p d) w in
  status w' = recording /\
  rp_error (render w') = RecorderErrors name /\
  rp_previewStream (render w') = Some s /\
  mediaRecorder w' = Some {| state := rs_recording; stream := s |}.
Proof.
  intros Hs (t & Hin & Ht) _ Hr.
  assert (He : existsb is_ended s = true).
  { apply existsb_exists. exists t. split; [exact Hin|].
    unfold is_ended. rewrite Ht. reflexivity. }
  destruct (startRecording_after_reacquisition p d w s Hs He)
    as (Herr & Hms & Hst & Hrec & _).
  assert (Ha : attempts StateStream (with_error "NONE" w))
    by (intros H; discriminate H).
  destruct (getMediaStream_rejected_keeps_name StateStream p d
              (with_error "NONE" w) name Hr Ha) as [Hn Hk].
  cbv zeta. unfold render; simpl. rewrite Herr, Hms, Hn, Hk.
  simpl. repeat split; assumption.
Qed.

Lemma startRecording_records_despite_rejection_witness :
  let w' := exec (startRecording StateStream default_props
                    (rejecting_devices "NotReadableError"))
              world_with_half_ended in
  status w' = recording /\ rp_error (render w') = Some "media_in_use".
Proof.
  cbv zeta.
  destruct (startRecording_records_despite_rejection default_props
              (rejecting_devices "NotReadableError") world_with_half_ended
              [ {| kind := kind_audio; enabled := true; readyState := ended |};
                camera_track ]
              "NotReadableError" eq_refl) as (Hs & He & _).
  - eexists. split; [left; reflexivity | reflexivity].
  - eexists. split; [right; left; reflexivity | reflexivity].
  - reflexivity.
  - split; [exact Hs | exact He].
Defined.

(** ** Stop *)

(** X9. A second [stopRecording] changes nothing: whatever the session,
    stopping twice leaves it as stopping once does. *)
Theorem stopRecording_twice (p : Props) (w : World) :
  exec (stopRecording p) (exec (stopRecording p) w) = exec (stopRecording p) w /\
  completes (stopRecording p) (exec (stopRecording p) w) = true.
Proof.
  unfold stopRecording. unfold_hook.
  destruct (mediaRecorder w) as [r|] eqn:Hr; simpl; [|rewrite Hr; split; reflexivity].
  destruct (state r) eqn:Hs; simpl.
  - rewrite Hr, Hs. split; reflexivity.
  - destruct (stopStreamsOnStop p); simpl; rewrite Hr; simpl; split; reflexivity.
  - destruct (stopStreamsOnStop p); simpl; rewrite Hr; simpl; split; reflexivity.
Qed.

Lemma stop_all_tracks_ended (s : MediaStream) :
  all_ended (stop_all_tracks s) /\
  same_tracks s (stop_all_tracks s) /\
  List.map enabled (stop_all_tracks s) = List.map enabled s.
Proof.
  unfold all_ended, same_tracks, stop_all_tracks. repeat split.
  - intros t Hin. apply in_map_iff in Hin. destruct Hin as (t0 & <- & _). reflexivity.
  - rewrite map_map. reflexivity.
  - rewrite map_map. reflexivity.
Qed.

(** X10. A [stopRecording] that finds the recorder active releases the
    stream exactly when [stopStreamsOnStop] is set: then every track of the
    stream has ended afterwards, with its kind and enabled flag unchanged;
    otherwise the stream is as it was, tracks live. *)
Theorem stopRecording_releases_tracks_when_configured
  (p : Props) (w : World) (r : MediaRecorder) (s : MediaStream) :
  mediaRecorder w = Some r -> state r <> rs_inactive ->
  mediaStream w = Some s ->
  let w' := exec (stopRecording p) w in
  (stopStreamsOnStop p = true ->
   exists s', mediaStream w' = Some s' /\ all_ended s' /\ same_tracks s s' /\
              List.map enabled s' = List.map enabled s) /\
  (stopStreamsOnStop p = false -> mediaStream w' = Some s).
Proof.
  intros Hr Hst Hs. unfold stopRecording. unfold_hook. rewrite Hr.
  destruct (state r); [congruence| |]; split; intros Hp; rewrite Hp; simpl;
    rewrite Hs; simpl;
    try reflexivity;
    (exists (stop_all_tracks s); split; [reflexivity | apply stop_all_tracks_ended]).
Qed.

Lemma stopRecording_releases_tracks_when_configured_witness :
  let w := exec (startRecording StateStream default_props granting_devices)
             world_with_mic in
  mediaStream (exec (stopRecording default_props) w) =
    Some [ {| kind := kind_audio; enabled := true; readyState := ended |} ].
Proof.
  cbv zeta.
  destruct (stopRecording_releases_tracks_when_configured default_props
              (exec (startRecording StateStream default_props granting_devices)
                 world_with_mic)
              {| state := rs_recording; stream := [mic_track] |} [mic_track]
              eq_refl) as [H _].
  - discriminate.
  - reflexivity.
  - destruct (H eq_refl) as (s' & Hs' & _). rewrite Hs'. clear H.
    vm_compute in Hs'. injection Hs' as <-. reflexivity.
Defined.

(** [stopRecording] on an active recorder, on the stream. *)
Lemma stopRecording_active_stream (p : Props) (w : World) (r : MediaRecorder) :
  mediaRecorder w = Some r -> state r <> rs_inactive ->
  mediaStream (exec (stopRecording p) w) =
    if stopStreamsOnStop p then option_map stop_all_tracks (mediaStream w)
    else mediaStream w.
Proof.
  intros Hr Hs. unfold stopRecording. unfold_hook. rewrite Hr.
  destruct (state r); [congruence| |]; destruct (stopStreamsOnStop p); reflexivity.
Qed.

Lemma stop_all_tracks_some_ended (s : MediaStream) :
  s <> [] -> existsb is_ended (stop_all_tracks s) = true.
Proof.
  destruct s as [|t s]; [congruence|]. intros _. reflexivity.
Qed.

(** X11. After a [stopRecording] that released the tracks of a stream that
    has tracks, the next [startRecording] meets ended tracks.  The state
    variant then re-acquires: the status passes through
    ["acquiring_media"] and ["idle"] after ["stopping"].  The ref variant
    makes no request to the capture capability, and still holds the stream
    whose tracks have all ended. *)
Theorem start_after_releasing_stop
  (p : Props) (d : MediaDevices) (w : World) (r : MediaRecorder) (s : MediaStream) :
  mediaRecorder w = Some r -> state r <> rs_inactive ->
  mediaStream w = Some s -> s <> [] ->
  stopStreamsOnStop p = true ->
  (exists rest,
     status_updates
       (effects (run StateStream p [call_stopRecording; call_startRecording d] w)) =
     (status_updates (effects w) ++ stopping :: acquiring_media :: idle :: rest)%list) /\
  (let w' := run RefStream p [call_stopRecording; call_startRecording d] w in
   capture_requests (effects w') = capture_requests (effects w) /\
   exists s', mediaStream w' = Some s' /\ all_ended s' /\ same_tracks s s').
Proof.
  intros Hr Hst Hs Hne Hp.
  destruct (stopRecording_active p w r Hr Hst) as (_ & _ & _ & He & _).
  pose proof (stopRecording_active_stream p w r Hr Hst) as Hms.
  rewrite Hp, Hs in Hms. simpl in Hms.
  set (w1 := exec (stopRecording p) w) in *.
  pose proof (stop_all_tracks_some_ended s Hne) as Hended.
  split.
  - change (run StateStream p [call_stopRecording; call_startRecording d] w)
      with (exec (startRecording StateStream p d) w1).
    destruct (startRecording_after_reacquisition p d w1 _ Hms Hended)
      as (_ & _ & _ & _ & Heff).
    destruct (getMediaStream_attempt_statuses StateStream p d
                (with_error "NONE" w1)) as [Hu _];
      [intros H; discriminate H|].
    rewrite Heff, status_updates_app, Hu. simpl effects. rewrite He.
    rewrite status_updates_app. simpl.
    rewrite <- !app_assoc. simpl.
    eexists. reflexivity.
  - cbv zeta.
    change (run RefStream p [call_stopRecording; call_startRecording d] w)
      with (exec (startRecording RefStream p d) w1).
    destruct (startRecording_with_stream RefStream p d w1 _ Hms)
      as (_ & _ & _ & _ & _ & mid & Heff & -> & Hm).
    split.
    + rewrite Heff, He. rewrite !capture_requests_app. simpl.
      rewrite !app_nil_r. reflexivity.
    + exists (stop_all_tracks s). split; [exact Hm|].
      destruct (stop_all_tracks_ended s) as (Ha & Hsame & _).
      split; assumption.
Qed.

Lemma start_after_releasing_stop_witness :
  let w := exec (startRecording StateStream default_props granting_devices)
             world_with_mic in
  exists rest,
    status_updates
      (effects (run StateStream default_props
                  [call_stopRecording; call_startRecording granting_devices] w)) =
    (status_updates (effects w) ++ stopping :: acquiring_media :: idle :: rest)%list.
Proof.
  cbv zeta.
  refine (proj1 (start_after_releasing_stop default_props granting_devices
                   (exec (startRecording StateStream default_props granting_devices)
                      world_with_mic)
                   {| state := rs_recording; stream := [mic_track] |} [mic_track]
                   eq_refl _ eq_refl _ eq_refl)); discriminate.
Defined.

(** ** Pause, resume, mute *)

(** X12. Pause then resume on a recording recorder, and resume then pause
    on a paused one, leave the whole session exactly as it was. *)
Theorem pause_resume_round_trip (w : World) :
  (recorder_in rs_recording w ->
   exec resumeRecording (exec pauseRecording w) = w) /\
  (recorder_in rs_paused w ->
   exec pauseRecording (exec resumeRecording w) = w).
Proof.
  split; intros (r & Hr & Hs);
    unfold pauseRecording, resumeRecording; unfold_hook;
    rewrite Hr, Hs; simpl; rewrite Hr; simpl;
    destruct w as [mr mc ms st am url err bs eff]; simpl in *; subst mr;
    destruct r as [rs rstream]; simpl in *; subst rs; reflexivity.
Qed.

Lemma pause_resume_round_trip_witness :
  let w := exec (startRecording StateStream default_props granting_devices)
             world_with_mic in
  exec resumeRecording (exec pauseRecording w) = w.
Proof.
  cbv zeta.
  apply (proj1 (pause_resume_round_trip
                  (exec (startRecording StateStream default_props granting_devices)
                     world_with_mic))).
  exists {| state := rs_recording; stream := [mic_track] |}.
  split; reflexivity.
Defined.

(** X13. Of several mute and unmute calls in a row only the last one
    counts: the session after [muteAudio(a)] then [muteAudio(b)] is the
    session after [muteAudio(b)] alone.  In particular each call is
    idempotent. *)
Theorem muteAudio_last_call_wins (a b : bool) (w : World) :
  exec (muteAudio b) (exec (muteAudio a) w) = exec (muteAudio b) w /\
  exec (muteAudio b) (exec (muteAudio b) w) = exec (muteAudio b) w.
Proof.
  assert (H : forall x y, exec (muteAudio y) (exec (muteAudio x) w) =
                          exec (muteAudio y) w).
  { intros x y. unfold exec. rewrite !muteAudio_effect. simpl.
    destruct (mediaStream w) as [s|]; simpl; [|reflexivity].
    rewrite set_audio_enabled_twice. reflexivity. }
  split; apply H.
Qed.

(** ** Finalize again *)

(** X14. The finalize handler does not consume the chunk buffer.  When a
    second stop event follows the first with nothing in between, [onStop]
    is called a second time, with a blob of the same data and type under a
    different URL. *)
Theorem finalize_twice_same_blob_new_url
  (v : Variant) (p : Props) (w : World) (c : Blob) (cs : list Blob) :
  mediaChunks w = c :: cs ->
  mediaChunks (step v p w ev_stop) = mediaChunks w /\
  exists url1 url2 blob,
    effects (run v p [ev_stop; ev_stop] w) =
      (effects w ++ [SetStatus stopped; CallOnStop url1 blob;
                     SetStatus stopped; CallOnStop url2 blob])%list /\
    url1 <> url2 /\
    mediaBlobUrl (run v p [ev_stop; ev_stop] w) = Some url2.
Proof.
  intros Hc.
  change (run v p [ev_stop; ev_stop] w)
    with (exec (onRecordingStop p) (exec (onRecordingStop p) w)).
  change (step v p w ev_stop) with (exec (onRecordingStop p) w).
  pose proof (onRecordingStop_chunks p w c cs Hc) as H1. cbv zeta in H1.
  assert (Hw1 : exec (onRecordingStop p) w = snd (onRecordingStop p w))
    by reflexivity.
  rewrite H1 in Hw1. simpl snd in Hw1.
  set (w1 := exec (onRecordingStop p) w) in *.
  assert (Hc1 : mediaChunks w1 = c :: cs) by (rewrite Hw1; exact Hc).
  split; [rewrite Hc1, Hc; reflexivity|].
  pose proof (onRecordingStop_chunks p w1 c cs Hc1) as H2. cbv zeta in H2.
  unfold exec. rewrite H2. clear H1 H2 Hc1.
  clearbody w1. subst w1. simpl.
  eexists; eexists; eexists. split; [|split].
  - rewrite <- !app_assoc. simpl. reflexivity.
  - intros E. apply object_url_inj in E.
    rewrite length_app in E. simpl in E. lia.
  - reflexivity.
Qed.

Lemma finalize_twice_same_blob_new_url_witness :
  exists url1 url2 blob,
    effects (run StateStream default_props [ev_stop; ev_stop]
               (with_mediaChunks [chunk_a] initial_world)) =
      [SetStatus stopped; CallOnStop url1 blob;
       SetStatus stopped; CallOnStop url2 blob] /\
    url1 <> url2.
Proof.
  destruct (finalize_twice_same_blob_new_url StateStream default_props
              (with_mediaChunks [chunk_a] initial_world) chunk_a [] eq_refl)
    as (_ & url1 & url2 & blob & He & Hne & _).
  exists url1, url2, blob. split; [exact He | exact Hne].
Defined.

(** ** Invariants of a session *)

(** Unfolding of every handler down to the primitive operations. *)
Ltac unfold_handlers :=
  unfold step; simpl handler;
  unfold startRecording, getMediaStream, stopRecording, pauseRecording,
    resumeRecording, muteAudio, clearBlobUrl, stopMediaStream,
    onRecordingActive, onRecordingStart, onRecorderError;
  unfold_hook.



(** A step either leaves the URL store and the [onStop] calls alone, and
    keeps or clears the URL shown, or registers one blob, hands it to
    [onStop] with the URL just issued, and shows that URL. *)
Lemma step_calls (v : Variant) (p : Props) (w : World) (e : Event) :
  let w' := step v p w e in
  (blobStore w' = blobStore w /\
   onStop_calls (effects w') = onStop_calls (effects w) /\
   (mediaBlobUrl w' = mediaBlobUrl w \/ mediaBlobUrl w' = None)) \/
  (exists blob,
     blobStore w' = (blobStore w ++ [blob])%list /\
     onStop_calls (effects w') =
       (onStop_calls (effects w) ++
        [(object_url (List.length (blobStore w)), blob)])%list /\
     mediaBlobUrl w' = Some (object_url (List.length (blobStore w)))).
Proof.
  cbv zeta. destruct e.
  12: { unfold step. simpl handler.
    destruct (mediaChunks w) as [|c cs] eqn:Hc.
    - left. unfold exec. rewrite (onRecordingStop_empty p w Hc). simpl. auto.
    - right. unfold exec. rewrite (onRecordingStop_chunks p w c cs Hc). simpl.
      eexists. rewrite !onStop_calls_app. simpl. rewrite app_nil_r.
      repeat split; reflexivity. }
  all: left; unfold_handlers; simpl; split_match; simpl;
    rewrite ?onStop_calls_app; simpl; rewrite ?app_nil_r; auto.
Qed.

Lemma NoDup_object_urls (n a : nat) :
  NoDup (List.map object_url (seq a n)).
Proof.
  revert a. induction n as [|n IH]; intros a; simpl; constructor; [|apply IH].
  intros Hin. apply in_map_iff in Hin. destruct Hin as (k & E & Hk).
  apply object_url_inj in E. subst k. apply in_seq in Hk. lia.
Qed.

(** X16. Along any session from its initial state, the [onStop] calls and
    the URL store agree: the i-th call received the i-th URL issued and
    the very blob registered under it, so no two calls received the same
    URL; and the URL shown as [mediaBlobUrl], when there is one, is the URL
    of one of those calls. *)
Theorem onStop_calls_match_url_store (v : Variant) (p : Props) (es : list Event) :
  let w := run v p es initial_world in
  calls_match_store w /\
  (forall i url blob,
     nth_error (onStop_calls (effects w)) i = Some (url, blob) ->
     url = object_url i /\ nth_error (blobStore w) i = Some blob) /\
  NoDup (List.map fst (onStop_calls (effects w))) /\
  shown_url_was_handed w.
Proof.
  cbv zeta.
  assert (H : forall w0, calls_match_store w0 /\ shown_url_was_handed w0 ->
                         calls_match_store (run v p es w0) /\
                         shown_url_was_handed (run v p es w0)).
  { induction es as [|e es IH]; intros w0 [Hm Hsh]; simpl; [split; assumption|].
    fold (run v p es (step v p w0 e)). apply IH.
    unfold calls_match_store, shown_url_was_handed in *.
    destruct Hm as [Hsnd Hfst].
    destruct (step_calls v p w0 e)
      as [(Hb & Hc & Hu) | (blob & Hb & Hc & Hu)]; rewrite Hb, Hc.
    - split; [split; assumption|].
      destruct Hu as [-> | ->]; [exact Hsh | discriminate].
    - split.
      + rewrite !map_app, length_app, Hsnd, Hfst. simpl.
        rewrite Nat.add_1_r, seq_S, map_app. simpl. split; reflexivity.
      + rewrite Hu. intros u Hu'. injection Hu' as <-.
        exists blob. apply in_or_app. right. left. reflexivity. }
  destruct (H initial_world) as [[Hsnd Hfst] Hsh].
  { split; [split; reflexivity | intros u Hu; discriminate Hu]. }
  split; [split; assumption|]. split; [|split; [|exact Hsh]].
  - intros i url blob Hn.
    assert (Hf : nth_error (List.map fst (onStop_calls
                   (effects (run v p es initial_world)))) i = Some url)
      by (rewrite nth_error_map, Hn; reflexivity).
    assert (Hs : nth_error (List.map snd (onStop_calls
                   (effects (run v p es initial_world)))) i = Some blob)
      by (rewrite nth_error_map, Hn; reflexivity).
    rewrite Hsnd in Hs. split; [|exact Hs].
    rewrite Hfst in Hf. rewrite nth_error_map in Hf.
    destruct (nth_error (seq 0 (List.length (blobStore (run v p es initial_world)))) i)
      as [k|] eqn:Hk; [|discriminate Hf].
    simpl in Hf. injection Hf as <-.
    assert (Hlt : i < List.length
                    (seq 0 (List.length (blobStore (run v p es initial_world)))))
      by (apply nth_error_Some; rewrite Hk; discriminate).
    rewrite length_seq in Hlt.
    rewrite nth_error_nth' with (d := 0) in Hk by (rewrite length_seq; exact Hlt).
    rewrite seq_nth in Hk by exact Hlt. injection Hk as <-. reflexivity.
  - rewrite Hfst. apply NoDup_object_urls.
Qed.





(** No step empties the stream cell or the recorder cell. *)
Lemma step_keeps_references (v : Variant) (p : Props) (w : World) (e : Event) :
  (mediaStream w <> None -> mediaStream (step v p w e) <> None) /\
  (mediaRecorder w <> None -> mediaRecorder (step v p w e) <> None).
Proof.
  destruct e.
  12: { unfold step. simpl handler.
    destruct (mediaChunks w) as [|c cs] eqn:Hc; unfold exec.
    - rewrite (onRecordingStop_empty p w Hc). simpl. tauto.
    - rewrite (onRecordingStop_chunks p w c cs Hc). simpl. tauto. }
  all: unfold_handlers; simpl; split_match; simpl;
    split; intros H; try assumption; try discriminate; try congruence;
    match goal with
    | |- option_map _ ?x <> None => destruct x; simpl; congruence
    end.
Qed.


(** X17. The hook never lets go of what it holds: along any sequence of
    calls and recorder events, a session that holds a stream goes on
    holding one, and a session that holds a recorder goes on holding one
    (stopped or not). *)
Theorem references_are_never_dropped
  (v : Variant) (p : Props) (es : list Event) (w : World) :
  (mediaStream w <> None -> mediaStream (run v p es w) <> None) /\
  (mediaRecorder w <> None -> mediaRecorder (run v p es w) <> None).
Proof.
  revert w. induction es as [|e es IH]; intros w; simpl; [tauto|].
  fold (run v p es (step v p w e)).
  destruct (step_keeps_references v p w e) as [Hs Hr].
  destruct (IH (step v p w e)) as [IHs IHr].
  split; auto.
Qed.

Lemma references_are_never_dropped_witness :
  mediaStream (run StateStream default_props
                 [call_startRecording granting_devices; call_stopRecording;
                  call_stopMediaStream; call_clearBlobUrl] world_with_mic) <> None.
Proof.
  apply (proj1 (references_are_never_dropped StateStream default_props
                  [call_startRecording granting_devices; call_stopRecording;
                   call_stopMediaStream; call_clearBlobUrl] world_with_mic)).
  discriminate.
Defined.



(** ** Media permissions *)

Lemma getItem_setItem (key value : string) (s : Storage) :
  getItem key (setItem key value s) = Some value.
Proof. unfold setItem. simpl. rewrite String.eqb_refl. reflexivity. Qed.

Lemma stored_permission_granted (s : Storage) :
  getMediaPermissions (setMediaPermissions Granted s) = Granted.
Proof.
  unfold getMediaPermissions, setMediaPermissions.
  rewrite getItem_setItem. reflexivity.
Qed.

(** X19. The permission stored is the permission read back, for each of
    the three; and a storage with no entry under the key, or with a value
    that is none of the three strings, reads as ["prompt"]. *)
Theorem stored_permission_round_trip (p : MediaPermissions) (s : Storage) :
  getMediaPermissions (setMediaPermissions p s) = p /\
  (getItem MEDIA_PERMISSIONS_KEY s = None -> getMediaPermissions s = Prompt) /\
  (forall value,
     getItem MEDIA_PERMISSIONS_KEY s = Some value ->
     (forall q, value <> MediaPermissions_value q) ->
     getMediaPermissions s = Prompt).
Proof.
  split; [|split].
  - unfold getMediaPermissions, setMediaPermissions.
    rewrite getItem_setItem. destruct p; reflexivity.
  - intros H. unfold getMediaPermissions. rewrite H. reflexivity.
  - intros value H Hq. unfold getMediaPermissions. rewrite H.
    destruct (String.eqb_spec value (MediaPermissions_value Prompt)) as [E|_];
      [exfalso; exact (Hq Prompt E)|].
    destruct (String.eqb_spec value (MediaPermissions_value Granted)) as [E|_];
      [exfalso; exact (Hq Granted E)|].
    destruct (String.eqb_spec value (MediaPermissions_value Denied)) as [E|_];
      [exfalso; exact (Hq Denied E)|].
    reflexivity.
Qed.

Lemma stored_permission_round_trip_witness :
  getMediaPermissions [] = Prompt /\
  getMediaPermissions [(MEDIA_PERMISSIONS_KEY, "yes")] = Prompt.
Proof.
  split.
  - apply (proj1 (proj2 (stored_permission_round_trip Granted []))). reflexivity.
  - apply (proj2 (proj2 (stored_permission_round_trip Granted
                           [(MEDIA_PERMISSIONS_KEY, "yes")])) "yes").
    + reflexivity.
    + intros q; destruct q; discriminate.
Defined.

(** X20. When both permission queries are answered, the answer of
    [queryMediaPermissions] does not depend on the storage and is:
    granted exactly when microphone and camera are both granted; prompt
    exactly when they are not both granted and one of them is at prompt
    (also when the other is denied); denied exactly when neither is at
    prompt and one of them is denied. *)
Theorem queryMediaPermissions_answered
  (api : PermissionsApi) (s : Storage) (microphone camera : PermissionState) :
  api "microphone" = inl microphone ->
  api "camera" = inl camera ->
  let answer := queryMediaPermissions api s in
  (answer = Granted <-> microphone = ps_granted /\ camera = ps_granted) /\
  (answer = Prompt <-> microphone = ps_prompt \/ camera = ps_prompt) /\
  (answer = Denied <->
   microphone <> ps_prompt /\ camera <> ps_prompt /\
   (microphone = ps_denied \/ camera = ps_denied)) /\
  (forall s', queryMediaPermissions api s' = answer).
Proof.
  intros Hm Hc. unfold queryMediaPermissions. rewrite Hm, Hc.
  destruct microphone, camera; simpl;
    repeat split; intros; try reflexivity; try discriminate;
    intuition (try discriminate; try congruence).
Qed.

Lemma queryMediaPermissions_answered_witness :
  queryMediaPermissions
    (fun name => if String.eqb name "camera" then inl ps_prompt else inl ps_denied)
    [] = Prompt.
Proof.
  apply (proj1 (proj2 (queryMediaPermissions_answered
           (fun name => if String.eqb name "camera" then inl ps_prompt
                        else inl ps_denied)
           [] ps_denied ps_prompt eq_refl eq_refl))).
  right. reflexivity.
Defined.

(** X21. A request that the capture capability grants stops every track
    of the stream it was given, stores ["granted"], and answers what a
    permission query then says; when the permissions interface rejects a
    query (it does not know the name, say), that answer is the value just
    stored: granted. *)
Theorem requestUserMedia_granted
  (d : MediaDevices) (api : PermissionsApi) (s : Storage) (stream : MediaStream) :
  getUserMedia d {| c_audio := Some (spec_bool true);
                    c_video := Some (spec_bool true) |} = inl stream ->
  exists s' released,
    requestUserMedia d api s = (queryMediaPermissions api s', s', Some released) /\
    getMediaPermissions s' = Granted /\
    all_ended released /\ same_tracks stream released /\
    ((exists e, api "microphone" = inr e) \/
     (exists m e, api "microphone" = inl m /\ api "camera" = inr e) ->
     queryMediaPermissions api s' = Granted).
Proof.
  intros Hg. unfold requestUserMedia. rewrite Hg.
  eexists; eexists. split; [reflexivity|].
  assert (Hs : getMediaPermissions (setMediaPermissions Granted s) = Granted)
    by apply stored_permission_granted.
  destruct (stop_all_tracks_ended stream) as (Ha & Hsame & _).
  repeat split; try assumption.
  intros [(e & He) | (m & e & Hm & He)]; unfold queryMediaPermissions.
  - rewrite He. exact Hs.
  - rewrite Hm, He. exact Hs.
Qed.

Lemma requestUserMedia_granted_witness :
  exists s' released,
    requestUserMedia granting_devices no_permissions_api [] =
      (Granted, s', Some released) /\
    all_ended released.
Proof.
  destruct (requestUserMedia_granted granting_devices no_permissions_api []
              [mic_track] eq_refl)
    as (s' & released & Hr & _ & Ha & _ & Hq).
  exists s', released. split; [|exact Ha].
  rewrite Hr. rewrite Hq; [reflexivity|].
  left. eexists. reflexivity.
Defined.

(** What one request does to the storage: nothing, or it stores
    ["granted"]. *)
Lemma requestUserMedia_storage
  (d : MediaDevices) (api : PermissionsApi) (s : Storage) :
  let '(answer, s', released) := requestUserMedia d api s in
  (s' = s /\ answer = Denied /\ released = None) \/
  s' = setMediaPermissions Granted s.
Proof.
  unfold requestUserMedia.
  destruct (getUserMedia d _); [right; reflexivity | left; auto].
Qed.

(** X22. A rejected request answers ["denied"] and stores nothing.  So
    the storage only ever receives ["granted"]: over any series of
    requests, a stored ["granted"] stays, also when later requests are
    rejected, and a storage that does not read as denied never comes to
    read as denied. *)
Theorem denied_request_is_not_remembered
  (rs : list (MediaDevices * PermissionsApi)) (s : Storage) :
  (forall d api name,
     getUserMedia d {| c_audio := Some (spec_bool true);
                       c_video := Some (spec_bool true) |} = inr name ->
     requestUserMedia d api s = (Denied, s, None)) /\
  (getMediaPermissions s = Granted ->
   getMediaPermissions (request_all rs s) = Granted) /\
  (getMediaPermissions s <> Denied ->
   getMediaPermissions (request_all rs s) <> Denied).
Proof.
  split; [|split].
  - intros d api name H. unfold requestUserMedia. rewrite H. reflexivity.
  - revert s. induction rs as [|[d api] rs IH]; intros s Hs; simpl; [exact Hs|].
    pose proof (requestUserMedia_storage d api s) as H.
    destruct (requestUserMedia d api s) as [[answer s'] released].
    apply IH. destruct H as [(-> & _) | ->];
      [exact Hs | apply stored_permission_granted].
  - revert s. induction rs as [|[d api] rs IH]; intros s Hs; simpl; [exact Hs|].
    pose proof (requestUserMedia_storage d api s) as H.
    destruct (requestUserMedia d api s) as [[answer s'] released].
    apply IH. destruct H as [(-> & _) | ->]; [exact Hs|].
    rewrite stored_permission_granted. discriminate.
Qed.

Lemma denied_request_is_not_remembered_witness :
  getMediaPermissions
    (request_all [ (granting_devices, no_permissions_api);
                   (rejecting_devices "NotAllowedError", no_permissions_api) ]
                 []) = Granted /\
  getMediaPermissions
    (request_all [ (rejecting_devices "NotAllowedError", no_permissions_api) ] [])
  <> Denied.
Proof.
  split.
  - apply (proj1 (proj2 (denied_request_is_not_remembered
             [ (rejecting_devices "NotAllowedError", no_permissions_api) ]
             (setMediaPermissions Granted [])))).
    reflexivity.
  - apply (proj2 (proj2 (denied_request_is_not_remembered
             [ (rejecting_devices "NotAllowedError", no_permissions_api) ] []))).
    discriminate.
Defined.

(** ** The mount effect *)




(** X24. On a runtime without [MediaRecorder] the mount effect sets the
    error that the consumer reads as ["unsupported_browser"] and stops
    there: no warning, no throw even when screen capture is asked for and
    missing, and in the state variant no acquisition.  The ref variant
    acquires in a second effect, which runs all the same: when the
    capability grants the attempt, the session holds a stream while it
    reports the browser as unsupported. *)
Theorem mount_without_MediaRecorder
  (v : Variant) (p : Props) (options : option MediaRecorderOptions)
  (rt : Runtime) (d : MediaDevices) (w : World) :
  has_MediaRecorder rt = false ->
  let w1 := exec (mountEffect v p options rt d) w in
  mountEffect v p options rt d w = (Normal [], with_error "UnsupportedBrowserError" w) /\
  rp_error (render w1) = Some "unsupported_browser" /\
  capture_requests (effects w1) = capture_requests (effects w) /\
  mediaStream w1 = mediaStream w /\
  (mediaStream w = None -> rejection p d = None ->
   let w2 := exec (acquireEffect RefStream p d) w1 in
   mediaStream w2 <> None /\ rp_error (render w2) = Some "unsupported_browser").
Proof.
  intros Hrt.
  assert (E : mountEffect v p options rt d w =
              (Normal [], with_error "UnsupportedBrowserError" w)).
  { unfold mountEffect. rewrite Hrt. reflexivity. }
  cbv zeta.
  assert (Ew : exec (mountEffect v p options rt d) w =
               with_error "UnsupportedBrowserError" w)
    by (unfold exec; rewrite E; reflexivity).
  rewrite Ew.
  split; [exact E|]. split; [reflexivity|]. split; [reflexivity|].
  split; [reflexivity|].
  intros Hn Hg.
  assert (Ha : attempts RefStream (with_error "UnsupportedBrowserError" w))
    by (intros _; exact Hn).
  destruct (getMediaStream_granted_core RefStream p d _ Hg Ha) as [He Hs].
  unfold acquireEffect, render. simpl. rewrite He. simpl.
  split; [exact Hs | reflexivity].
Qed.

Lemma mount_without_MediaRecorder_witness :
  let rt := {| has_MediaRecorder := false; has_getDisplayMedia := false;
               supportedConstraints := []; isTypeSupported := fun _ => false |} in
  let w1 := exec (mountEffect RefStream default_props None rt granting_devices)
              initial_world in
  rp_error (render w1) = Some "unsupported_browser" /\
  mediaStream (exec (acquireEffect RefStream default_props granting_devices) w1)
  <> None.
Proof.
  cbv zeta.
  destruct (mount_without_MediaRecorder RefStream default_props None
              {| has_MediaRecorder := false; has_getDisplayMedia := false;
                 supportedConstraints := []; isTypeSupported := fun _ => false |}
              granting_devices initial_world eq_refl)
    as (_ & He & _ & _ & H2).
  split; [exact He|].
  apply (H2 eq_refl eq_refl).
Defined.

(** X25. On a runtime with [MediaRecorder], the mount effect throws when
    screen capture is asked for and [getDisplayMedia] is missing, before
    anything is set or acquired.  Otherwise it never throws, and what it
    does to the session does not depend on which constraints or MIME types
    the runtime supports, or on the recorder options: the session is left
    as it is, except that the state variant, when it holds no stream, runs
    [getMediaStream].  Unsupported constraints and MIME types only produce
    messages. *)
Theorem mount_checks_warn_but_do_not_block
  (v : Variant) (p : Props) (options : option MediaRecorderOptions)
  (rt : Runtime) (d : MediaDevices) (w : World) :
  has_MediaRecorder rt = true ->
  (screen p = true -> has_getDisplayMedia rt = false ->
   mountEffect v p options rt d w = (Throw "Error", w)) /\
  (screen p = false \/ has_getDisplayMedia rt = true ->
   completes (mountEffect v p options rt d) w = true /\
   exec (mountEffect v p options rt d) w =
     match v, mediaStream w with
     | StateStream, None => exec (getMediaStream StateStream p d) w
     | _, _ => w
     end).
Proof.
  intros Hrt. unfold mountEffect. rewrite Hrt. simpl negb. cbv iota.
  split.
  - intros Hs Hd. rewrite Hs, Hd. reflexivity.
  - intros Hok.
    assert (Hg : screen p && negb (has_getDisplayMedia rt) = false).
    { destruct Hok as [-> | ->]; [reflexivity | apply andb_false_r]. }
    rewrite Hg.
    pose proof (getMediaStream_frame StateStream p d w) as F.
    unfold_hook. unfold exec, completes in F.
    destruct v; [|split; reflexivity].
    destruct (mediaStream w); [split; reflexivity|].
    destruct (getMediaStream StateStream p d w) as [c w1].
    simpl in F. destruct F as (Fc & _).
    destruct c as [[]|n]; [|discriminate Fc].
    split; reflexivity.
Qed.

Lemma mount_checks_warn_but_do_not_block_witness :
  let rt := {| has_MediaRecorder := true; has_getDisplayMedia := false;
               supportedConstraints := []; isTypeSupported := fun _ => false |} in
  let p := {| audio := spec_constraints ["echoCancellation"];
              video := spec_bool false; screen := false;
              blobPropertyBag := None; customMediaStream := None;
              stopStreamsOnStop := true |} in
  let options := Some {| mimeType := Some "video/x-matroska" |} in
  completes (mountEffect StateStream p options rt granting_devices)
    initial_world = true /\
  exec (mountEffect StateStream p options rt granting_devices) initial_world =
    exec (getMediaStream StateStream p granting_devices) initial_world.
Proof.
  cbv zeta.
  exact (proj2 (mount_checks_warn_but_do_not_block StateStream
                  {| audio := spec_constraints ["echoCancellation"];
                     video := spec_bool false; screen := false;
                     blobPropertyBag := None; customMediaStream := None;
                     stopStreamsOnStop := true |}
                  (Some {| mimeType := Some "video/x-matroska" |})
                  {| has_MediaRecorder := true; has_getDisplayMedia := false;
                     supportedConstraints := []; isTypeSupported := fun _ => false |}
                  granting_devices initial_world eq_refl)
               (or_introl eq_refl)).
Defined.

(** ** Releasing the stream *)

(** X26. [stopMediaStream] ends every track of the stream held and does
    nothing else: also in the middle of a recording the recorder is not
    stopped, the status stays as it is and the chunk buffer is kept.
    Calling it again changes nothing. *)
Theorem stopMediaStream_ends_tracks_only (w : World) (s : MediaStream) :
  mediaStream w = Some s ->
  let w' := exec stopMediaStream w in
  (exists s', mediaStream w' = Some s' /\ all_ended s' /\ same_tracks s s') /\
  mediaRecorder w' = mediaRecorder w /\
  status w' = status w /\
  mediaChunks w' = mediaChunks w /\
  effects w' = effects w /\
  exec stopMediaStream w' = w'.
Proof.
  intros Hs. unfold stopMediaStream. unfold_hook. simpl. rewrite Hs. simpl.
  destruct (stop_all_tracks_ended s) as (Ha & Hsame & _).
  split; [exists (stop_all_tracks s); repeat split; assumption|].
  repeat split.
  unfold with_mediaStream. simpl. f_equal. f_equal.
  unfold stop_all_tracks. rewrite map_map. reflexivity.
Qed.

Lemma stopMediaStream_ends_tracks_only_witness :
  let w := exec (startRecording StateStream default_props granting_devices)
             world_with_mic in
  status (exec stopMediaStream w) = recording /\
  mediaStream (exec stopMediaStream w) =
    Some [ {| kind := kind_audio; enabled := true; readyState := ended |} ].
Proof.
  cbv zeta.
  destruct (stopMediaStream_ends_tracks_only
              (exec (startRecording StateStream default_props granting_devices)
                 world_with_mic) [mic_track] eq_refl)
    as ((s' & Hs' & _) & _ & Hst & _).
  split; [rewrite Hst; reflexivity|].
  rewrite Hs'. vm_compute in Hs'. injection Hs' as <-. reflexivity.
Defined.
